(** * ZenFocus page (src/main.js): countdown timer, image store, to-do list

    A shallow embedding of the three stateful classes of [src/main.js]
    that carry a contract -- [PomodoroTimer], [ImageStorage] and
    [TodoManager] -- together with the browser facilities they call
    (interval timers, [alert], IndexedDB object store, [localStorage],
    [JSON], [String.prototype.trim] / [padStart]).

    Conventions of the embedding:
    - a JavaScript number that the page only ever uses as an integer
      (seconds, minutes, [Date.now()] time stamps) is a [Z];
    - a JavaScript string is a Rocq [string]; a character stands for a
      UTF-16 code unit below 256;
    - every method takes the object (and what it touches in the browser)
      as an explicit state and returns the new state;
    - a promise that settles is an [Outcome]: [Resolved v] or
      [Rejected e]; a thrown exception is an error value. *)

From Stdlib Require Import ZArith Ascii String.
From Stdlib Require Import DecimalString DecimalFacts DecimalPos DecimalN DecimalZ.
From stdpp Require Import gmap strings list sorting.

Local Open Scope string_scope.
Local Open Scope Z_scope.

(** ** JavaScript primitives used by the page *)

Module JS.

(** [Number.prototype.toString] on an integer: canonical decimal, [-]
    for negative numbers. *)
Definition Number_toString (z : Z) : string :=
  NilZero.string_of_int (Z.to_int z).

(** The character of a decimal digit [0..9]. *)
Definition digit_char (d : Z) : ascii := ascii_of_nat (48 + Z.to_nat d).

(** The first [k] characters of [cur ++ pad ++ pad ++ ...]. *)
Fixpoint fill (k : nat) (cur pad : string) : string :=
  match k with
  | O => ""
  | S k' =>
      match cur with
      | String c r => String c (fill k' r pad)
      | EmptyString =>
          match pad with
          | String c r => String c (fill k' r pad)
          | EmptyString => ""
          end
      end
  end.

(** [String.prototype.padStart(targetLength, padString)]. *)
Definition padStart (targetLength : nat) (padString s : string) : string :=
  if (targetLength <=? String.length s)%nat then s
  else fill (targetLength - String.length s) "" padString +:+ s.

(** White space and line terminators that [String.prototype.trim]
    strips, among the code units below 256: TAB, LF, VT, FF, CR, SP and
    NBSP. *)
Definition is_white_space (c : ascii) : bool :=
  match c with
  | "009" | "010" | "011" | "012" | "013" | " " | "160" => true
  | _ => false
  end%char.

Fixpoint trimStart (s : string) : string :=
  match s with
  | String c r => if is_white_space c then trimStart r else s
  | "" => ""
  end.

Fixpoint trimEnd (s : string) : string :=
  match s with
  | "" => ""
  | String c r =>
      match trimEnd r with
      | "" => if is_white_space c then "" else String c ""
      | r' => String c r'
      end
  end.

Definition trim (s : string) : string := trimEnd (trimStart s).

Fixpoint all_chars (p : ascii -> bool) (s : string) : bool :=
  match s with
  | "" => true
  | String c r => p c && all_chars p r
  end.

(** [Math.floor(a / b)] and [a % b] on integers: floored quotient, and the
    remainder that takes the sign of the dividend. *)
Definition floor_div (a b : Z) : Z := a / b.
Definition remainder (a b : Z) : Z := Z.rem a b.

End JS.

(** ** PomodoroTimer *)

(** The object's fields, the [textContent] of the three elements it
    writes, and the part of the window it acts on: the document title,
    the interval timers it has registered with [setInterval] that were
    not cleared yet, the next handle [setInterval] hands out, and the
    alerts shown so far (oldest first). *)
Record PomodoroTimer := mkTimer {
  timeLeft : Z;
  originalTime : Z;
  isRunning : bool;
  interval : option nat;
  timeDisplay : string;
  timerState : string;
  startBtn : string;
  title : string;
  intervals : gset nat;
  next_handle : nat;
  alerts : list string
}.

Module Timer.

Definition set_timeLeft (v : Z) (t : PomodoroTimer) : PomodoroTimer :=
  mkTimer v (originalTime t) (isRunning t) (interval t) (timeDisplay t)
          (timerState t) (startBtn t) (title t) (intervals t)
          (next_handle t) (alerts t).

Definition set_originalTime (v : Z) (t : PomodoroTimer) : PomodoroTimer :=
  mkTimer (timeLeft t) v (isRunning t) (interval t) (timeDisplay t)
          (timerState t) (startBtn t) (title t) (intervals t)
          (next_handle t) (alerts t).

Definition set_isRunning (v : bool) (t : PomodoroTimer) : PomodoroTimer :=
  mkTimer (timeLeft t) (originalTime t) v (interval t) (timeDisplay t)
          (timerState t) (startBtn t) (title t) (intervals t)
          (next_handle t) (alerts t).

Definition set_timerState (v : string) (t : PomodoroTimer) : PomodoroTimer :=
  mkTimer (timeLeft t) (originalTime t) (isRunning t) (interval t)
          (timeDisplay t) v (startBtn t) (title t) (intervals t)
          (next_handle t) (alerts t).

Definition set_startBtn (v : string) (t : PomodoroTimer) : PomodoroTimer :=
  mkTimer (timeLeft t) (originalTime t) (isRunning t) (interval t)
          (timeDisplay t) (timerState t) v (title t) (intervals t)
          (next_handle t) (alerts t).

(** [clearInterval(h)]: [clearInterval(null)] does nothing. *)
Definition clearInterval (h : option nat) (t : PomodoroTimer) : PomodoroTimer :=
  mkTimer (timeLeft t) (originalTime t) (isRunning t) (interval t)
          (timeDisplay t) (timerState t) (startBtn t) (title t)
          (match h with Some i => intervals t ∖ {[i]} | None => intervals t end)
          (next_handle t) (alerts t).

(** [this.interval = setInterval(callback, 1000)]: a fresh handle. *)
Definition setInterval (t : PomodoroTimer) : PomodoroTimer :=
  mkTimer (timeLeft t) (originalTime t) (isRunning t) (Some (next_handle t))
          (timeDisplay t) (timerState t) (startBtn t) (title t)
          ({[next_handle t]} ∪ intervals t)
          (S (next_handle t)) (alerts t).

Definition alert (msg : string) (t : PomodoroTimer) : PomodoroTimer :=
  mkTimer (timeLeft t) (originalTime t) (isRunning t) (interval t)
          (timeDisplay t) (timerState t) (startBtn t) (title t) (intervals t)
          (next_handle t) (alerts t ++ [msg])%list.

(** The text [updateDisplay] computes from [timeLeft]. *)
Definition display_text (left : Z) : string :=
  let minutes := JS.floor_div left 60 in
  let seconds := JS.remainder left 60 in
  JS.Number_toString minutes +:+ ":" +:+
  JS.padStart 2 "0" (JS.Number_toString seconds).

Definition updateDisplay (t : PomodoroTimer) : PomodoroTimer :=
  let text := display_text (timeLeft t) in
  mkTimer (timeLeft t) (originalTime t) (isRunning t) (interval t)
          text (timerState t) (startBtn t) (text +:+ " - ZenFocus")
          (intervals t) (next_handle t) (alerts t).

Definition pauseTimer (t : PomodoroTimer) : PomodoroTimer :=
  let t := set_isRunning false t in
  let t := set_startBtn "Start" t in
  clearInterval (interval t) t.

Definition setTime (minutes : Z) (t : PomodoroTimer) : PomodoroTimer :=
  let t := pauseTimer t in
  let t := set_originalTime (minutes * 60) t in
  let t := set_timeLeft (originalTime t) t in
  let t := set_timerState (if (minutes >? 15)%Z then "Focus" else "Break") t in
  updateDisplay t.

Definition resetTimer (t : PomodoroTimer) : PomodoroTimer :=
  let t := pauseTimer t in
  let t := set_timeLeft (originalTime t) t in
  updateDisplay t.

Definition completeTimer (t : PomodoroTimer) : PomodoroTimer :=
  let t := pauseTimer t in
  let t := alert "Time is up!" t in
  let t := set_timeLeft (originalTime t) t in
  updateDisplay t.

(** The callback [startTimer] passes to [setInterval]. *)
Definition on_tick (t : PomodoroTimer) : PomodoroTimer :=
  let t := set_timeLeft (timeLeft t - 1) t in
  let t := updateDisplay t in
  if timeLeft t <=? 0 then completeTimer t else t.

Definition startTimer (t : PomodoroTimer) : PomodoroTimer :=
  if isRunning t then t
  else
    let t := set_isRunning true t in
    let t := set_startBtn "Pause" t in
    setInterval t.

Definition toggleTimer (t : PomodoroTimer) : PomodoroTimer :=
  if isRunning t then pauseTimer t else startTimer t.

(** One second passes.  Every interval the object registered carries the
    same callback, so a tick happens exactly when some interval is still
    registered; with none registered no tick can occur. *)
Definition tick (t : PomodoroTimer) : option PomodoroTimer :=
  if decide (intervals t = ∅) then None else Some (on_tick t).

Fixpoint ticks (k : nat) (t : PomodoroTimer) : option PomodoroTimer :=
  match k with
  | O => Some t
  | S k' => match tick t with
            | Some t' => ticks k' t'
            | None => None
            end
  end.

(** The constructor followed by [init]'s [updateDisplay].  The three
    elements start with the text [startBtn0], [state0] of the page's
    markup. *)
Definition new (state0 startBtn0 title0 : string) : PomodoroTimer :=
  updateDisplay
    (mkTimer (30 * 60) (30 * 60) false None "" state0 startBtn0 title0 ∅ 1 []).

(** The timer is running exactly when its own interval is the one
    registered. *)
Definition consistent (t : PomodoroTimer) : Prop :=
  if isRunning t
  then exists h, interval t = Some h /\ intervals t = {[h]}
  else intervals t = ∅.

End Timer.

(** ** ImageStorage *)

(** What [FileReader] and [saveImage] see of an uploaded [File]. *)
Record File := mkFile {
  file_name : string;
  file_type : string;
  file_bytes : list Byte.byte
}.

(** The item [saveImage] builds and the object store returns. *)
Record ImageRecord := mkImage {
  img_id : Z;
  img_name : string;
  img_data : string
}.

Inductive Error :=
  | DBError (msg : string)     (* ['DB Error: ' + e.target.error] *)
  | ConstraintError.           (* [add] on a key that is already stored *)

Inductive Outcome (A : Type) :=
  | Resolved (a : A)
  | Rejected (e : Error).
Arguments Resolved {A} a.
Arguments Rejected {A} e.

(** [FileReader.readAsDataURL]: the payload as a base64 data URI. *)
Module DataURL.

Definition b64_char (n : N) : ascii :=
  if (n <? 26)%N then ascii_of_N (65 + n)
  else if (n <? 52)%N then ascii_of_N (97 + (n - 26))
  else if (n <? 62)%N then ascii_of_N (48 + (n - 52))
  else if (n =? 62)%N then "+"%char else "/"%char.

Fixpoint base64 (bs : list Byte.byte) : string :=
  match bs with
  | [] => ""
  | [a] =>
      let x := Byte.to_N a in
      String (b64_char (N.shiftr x 2))
        (String (b64_char (N.shiftl (N.land x 3) 4)) "==")
  | [a; b] =>
      let x := Byte.to_N a in
      let y := Byte.to_N b in
      String (b64_char (N.shiftr x 2))
        (String (b64_char (N.lor (N.shiftl (N.land x 3) 4) (N.shiftr y 4)))
           (String (b64_char (N.shiftl (N.land y 15) 2)) "="))
  | a :: b :: c :: rest =>
      let x := Byte.to_N a in
      let y := Byte.to_N b in
      let z := Byte.to_N c in
      String (b64_char (N.shiftr x 2))
        (String (b64_char (N.lor (N.shiftl (N.land x 3) 4) (N.shiftr y 4)))
           (String (b64_char (N.lor (N.shiftl (N.land y 15) 2) (N.shiftr z 6)))
              (String (b64_char (N.land z 63)) (base64 rest))))
  end.

Definition readAsDataURL (f : File) : string :=
  "data:" +:+
  (if decide (file_type f = "") then "application/octet-stream"
   else file_type f) +:+
  ";base64," +:+ base64 (file_bytes f).

End DataURL.

(** The IndexedDB object store ['images'], created with
    [{ keyPath: 'id' }]: a record is stored under its own [id], so the
    store is a finite map from the id to the rest of the record. *)
Module IDB.

Abbreviation ObjectStore := (gmap Z (string * string)).

(** [store.add(item)]: fails when the key is already present. *)
Definition add (item : ImageRecord) (os : ObjectStore) : option ObjectStore :=
  match os !! img_id item with
  | Some _ => None
  | None => Some (<[img_id item := (img_name item, img_data item)]> os)
  end.

(** [store.delete(id)]: succeeds whether or not the key is present. *)
Definition delete (id : Z) (os : ObjectStore) : ObjectStore :=
  base.delete id os.

Definition key_le (a b : Z * (string * string)) : Prop := a.1 <= b.1.

#[global] Instance key_le_dec a b : Decision (key_le a b) :=
  Z_le_dec a.1 b.1.

Definition record_of (e : Z * (string * string)) : ImageRecord :=
  mkImage e.1 e.2.1 e.2.2.

(** [store.getAll()]: every record, in ascending key order. *)
Definition getAll (os : ObjectStore) : list ImageRecord :=
  record_of <$> merge_sort key_le (map_to_list os).

End IDB.

(** The object once [initPromise] has settled: either [this.db] is the
    opened database holding the object store, or [openDB] rejected and
    [this.db] stays [null]. *)
Inductive ImageStorage :=
  | Opened (images : IDB.ObjectStore)
  | OpenFailed (error : string).

Module Storage.

(** [saveImage(file)] at time [now = Date.now()]. *)
Definition saveImage (now : Z) (file : File) (s : ImageStorage)
  : Outcome ImageRecord * ImageStorage :=
  match s with
  | OpenFailed e => (Rejected (DBError ("DB Error: " +:+ e)), s)
  | Opened images =>
      let item := mkImage now (file_name file) (DataURL.readAsDataURL file) in
      match IDB.add item images with
      | Some images' => (Resolved item, Opened images')
      | None => (Rejected ConstraintError, s)
      end
  end.

Definition getAllImages (s : ImageStorage) : Outcome (list ImageRecord) :=
  match s with
  | OpenFailed e => Rejected (DBError ("DB Error: " +:+ e))
  | Opened images => Resolved (IDB.getAll images)
  end.

Definition deleteImage (id : Z) (s : ImageStorage)
  : Outcome unit * ImageStorage :=
  match s with
  | OpenFailed e => (Rejected (DBError ("DB Error: " +:+ e)), s)
  | Opened images => (Resolved tt, Opened (IDB.delete id images))
  end.

(** A two-byte upload used in the examples. *)
Definition a_png : File := mkFile "a.png" "image/png" [Byte.x89; Byte.x50].

End Storage.

(** ** JSON *)

(** The values [JSON.parse] can produce.  Numbers are integers (the
    page only stores time stamps); an object is the list of its
    properties in insertion order, with distinct keys. *)
#[local] Unset Elimination Schemes.
Inductive JSValue :=
  | JNull
  | JBool (b : bool)
  | JNum (n : Z)
  | JStr (s : string)
  | JArr (items : list JSValue)
  | JObj (fields : list (string * JSValue)).
#[local] Set Elimination Schemes.

(** Induction on values, with the induction hypothesis for every item of
    an array and every property of an object. *)
Section JSValue_induction.

Variable P : JSValue -> Prop.
Hypothesis Hnull : P JNull.
Hypothesis Hbool : forall b, P (JBool b).
Hypothesis Hnum : forall n, P (JNum n).
Hypothesis Hstr : forall s, P (JStr s).
Hypothesis Harr : forall items, Forall P items -> P (JArr items).
Hypothesis Hobj :
  forall fields, Forall (fun kv => P (snd kv)) fields -> P (JObj fields).

Fixpoint JSValue_ind (v : JSValue) : P v :=
  match v with
  | JNull => Hnull
  | JBool b => Hbool b
  | JNum n => Hnum n
  | JStr s => Hstr s
  | JArr items =>
      Harr items
        ((fix all (l : list JSValue) : Forall P l :=
            match l with
            | [] => List.Forall_nil P
            | x :: r => List.Forall_cons P x r (JSValue_ind x) (all r)
            end) items)
  | JObj fields =>
      Hobj fields
        ((fix all (l : list (string * JSValue))
            : Forall (fun kv => P (snd kv)) l :=
            match l with
            | [] => List.Forall_nil _
            | kv :: r =>
                List.Forall_cons _ kv r (JSValue_ind (snd kv)) (all r)
            end) fields)
  end.

End JSValue_induction.

Module JSON.

(** What evaluating [JSON.parse(text)] gives: a value, a thrown
    [SyntaxError], or [Unsupported] when the text leaves the fragment
    modelled here: an integer literal followed by [.], [e] or [E]
    (JavaScript reads a number with a fraction or an exponent, or
    throws), a [\u] escape of a code unit above 255, an object key that
    is an integer index.  [OutOfFuel] is the bound of the
    recursion below running out. *)
Inductive Result (A : Type) :=
  | Ok (a : A)
  | SyntaxError
  | Unsupported
  | OutOfFuel.
Arguments Ok {A} a.
Arguments SyntaxError {A}.
Arguments Unsupported {A}.
Arguments OutOfFuel {A}.

Definition bind {A B} (r : Result A) (k : A -> Result B) : Result B :=
  match r with
  | Ok a => k a
  | SyntaxError => SyntaxError
  | Unsupported => Unsupported
  | OutOfFuel => OutOfFuel
  end.

Definition dquote : ascii := "034"%char.
Definition backslash : ascii := "092"%char.

(** *** [JSON.stringify] *)

Definition hex_digit (n : N) : ascii :=
  if (n <? 10)%N then ascii_of_N (48 + n) else ascii_of_N (87 + n).

(** QuoteJSONString, one code unit at a time. *)
Definition escape_char (c : ascii) : string :=
  if decide (c = dquote) then String backslash (String dquote "")
  else if decide (c = backslash) then String backslash (String backslash "")
  else if decide (c = "008"%char) then String backslash "b"
  else if decide (c = "009"%char) then String backslash "t"
  else if decide (c = "010"%char) then String backslash "n"
  else if decide (c = "012"%char) then String backslash "f"
  else if decide (c = "013"%char) then String backslash "r"
  else if (N_of_ascii c <? 32)%N then
    String backslash
      (String "u" (String "0" (String "0"
         (String (hex_digit (N_of_ascii c / 16))
            (String (hex_digit (N_of_ascii c mod 16)) "")))))
  else String c "".

Fixpoint escape (s : string) : string :=
  match s with
  | "" => ""
  | String c r => escape_char c +:+ escape r
  end.

Definition quote (s : string) : string :=
  String dquote (escape s +:+ String dquote "").

(** [items] separated by commas. *)
Fixpoint join (items : list string) : string :=
  match items with
  | [] => ""
  | [x] => x
  | x :: rest => x +:+ "," +:+ join rest
  end.

Fixpoint stringify (v : JSValue) : string :=
  match v with
  | JNull => "null"
  | JBool true => "true"
  | JBool false => "false"
  | JNum n => JS.Number_toString n
  | JStr s => quote s
  | JArr items => "[" +:+ join (map stringify items) +:+ "]"
  | JObj fields =>
      "{" +:+
      join (map (fun kv => quote (fst kv) +:+ ":" +:+ stringify (snd kv)) fields)
      +:+ "}"
  end.

(** The text of one property of an object. *)
Definition member_text (kv : string * JSValue) : string :=
  quote (fst kv) +:+ ":" +:+ stringify (snd kv).

(** *** [JSON.parse] *)

Definition is_ws (c : ascii) : bool :=
  match c with
  | " " | "009" | "010" | "013" => true
  | _ => false
  end%char.

Fixpoint skip_ws (s : string) : string :=
  match s with
  | String c r => if is_ws c then skip_ws r else s
  | "" => ""
  end.

(** [strip_prefix p s]: what follows [p] in [s]. *)
Fixpoint strip_prefix (p s : string) : option string :=
  match p, s with
  | "", _ => Some s
  | String a p', String b s' =>
      if decide (a = b) then strip_prefix p' s' else None
  | String _ _, "" => None
  end.

(** [after c s]: what follows the character [c] when [s] starts with
    it. *)
Definition after (c : ascii) (s : string) : option string :=
  match s with
  | String c' r => if decide (c' = c) then Some r else None
  | "" => None
  end.

Definition is_digit (c : ascii) : bool :=
  (48 <=? N_of_ascii c)%N && (N_of_ascii c <=? 57)%N.

Fixpoint span_digits (s : string) : string * string :=
  match s with
  | String c r =>
      if is_digit c
      then let '(ds, rest) := span_digits r in (String c ds, rest)
      else ("", s)
  | "" => ("", "")
  end.

Definition starts_fraction_or_exponent (s : string) : bool :=
  match s with
  | String c _ =>
      bool_decide (c = "."%char) || bool_decide (c = "e"%char)
      || bool_decide (c = "E"%char)
  | "" => false
  end.

(** A zero followed by more digits. *)
Definition leading_zero (ds : string) : bool :=
  match after "0" ds with
  | Some (String _ _) => true
  | _ => false
  end.

(** Digits without a leading zero, not followed by a fraction or an
    exponent. *)
Definition parse_natural (s : string) : Result (N * string) :=
  let '(ds, rest) := span_digits s in
  if bool_decide (ds = "") || leading_zero ds then SyntaxError
  else if starts_fraction_or_exponent rest then Unsupported
  else
    match NilEmpty.uint_of_string ds with
    | Some d => Ok (N.of_uint d, rest)
    | None => SyntaxError
    end.

(** An integer literal: an optional minus sign, then the digits. *)
Definition parse_number (s : string) : Result (Z * string) :=
  match after "-" s with
  | Some r =>
      bind (parse_natural r) (fun '(n, rest) => Ok (- Z.of_N n, rest))
  | None =>
      bind (parse_natural s) (fun '(n, rest) => Ok (Z.of_N n, rest))
  end.

Definition hex_value (c : ascii) : option N :=
  let n := N_of_ascii c in
  if is_digit c then Some (n - 48)%N
  else if (97 <=? n)%N && (n <=? 102)%N then Some (n - 87)%N
  else if (65 <=? n)%N && (n <=? 70)%N then Some (n - 55)%N
  else None.

Definition hex4 (a b c d : ascii) : option N :=
  match hex_value a, hex_value b, hex_value c, hex_value d with
  | Some x, Some y, Some z, Some w =>
      Some (((x * 16 + y) * 16 + z) * 16 + w)%N
  | _, _, _, _ => None
  end.

Definition cons_char (c : ascii) (r : Result (string * string))
  : Result (string * string) :=
  bind r (fun '(s, rest) => Ok (String c s, rest)).

(** The characters of a string literal after its opening quote, up to
    and including the closing quote. *)
Fixpoint parse_chars (s : string) : Result (string * string) :=
  match s with
  | "" => SyntaxError
  | String c r =>
      if decide (c = dquote) then Ok ("", r)
      else if decide (c = backslash) then
        match r with
        | "" => SyntaxError
        | String e r' =>
            if decide (e = dquote) then cons_char dquote (parse_chars r')
            else if decide (e = backslash) then cons_char backslash (parse_chars r')
            else if decide (e = "/"%char) then cons_char "/" (parse_chars r')
            else if decide (e = "b"%char) then cons_char "008" (parse_chars r')
            else if decide (e = "f"%char) then cons_char "012" (parse_chars r')
            else if decide (e = "n"%char) then cons_char "010" (parse_chars r')
            else if decide (e = "r"%char) then cons_char "013" (parse_chars r')
            else if decide (e = "t"%char) then cons_char "009" (parse_chars r')
            else if decide (e = "u"%char) then
              match r' with
              | String h1 (String h2 (String h3 (String h4 r''))) =>
                  match hex4 h1 h2 h3 h4 with
                  | Some n =>
                      if (n <? 256)%N
                      then cons_char (ascii_of_N n) (parse_chars r'')
                      else Unsupported
                  | None => SyntaxError
                  end
              | _ => SyntaxError
              end
            else SyntaxError
        end
      else if (N_of_ascii c <? 32)%N then SyntaxError
      else cons_char c (parse_chars r)
  end.

(** A key that is the canonical numeral of an integer.  JavaScript
    enumerates such properties before all others, whatever the order
    they were created in. *)
Definition is_integer_index (k : string) : bool :=
  match k with
  | "" => false
  | String c r =>
      is_digit c && JS.all_chars is_digit r
      && (negb (bool_decide (c = "0"%char)) || bool_decide (r = ""))
  end.

(** [obj[k] = v]: a key that is already present keeps its place. *)
Fixpoint obj_set (k : string) (v : JSValue) (fields : list (string * JSValue))
  : list (string * JSValue) :=
  match fields with
  | [] => [(k, v)]
  | (k', v') :: rest =>
      if decide (k' = k) then (k', v) :: rest
      else (k', v') :: obj_set k v rest
  end.

Definition make_object (members : list (string * JSValue))
  : list (string * JSValue) :=
  fold_left (fun acc kv => obj_set (fst kv) (snd kv) acc) members [].

Definition key_ok {A} (k : string) (a : A) : Result A :=
  if is_integer_index k then Unsupported else Ok a.

Definition literal (word : string) (v : JSValue) (s : string)
  : Result (JSValue * string) :=
  match strip_prefix word s with
  | Some rest => Ok (v, rest)
  | None => SyntaxError
  end.

(** Recursive descent; [fuel] bounds the number of nested calls. *)
Fixpoint parse_value (fuel : nat) (s : string) : Result (JSValue * string) :=
  match fuel with
  | O => OutOfFuel
  | S fuel' =>
      match skip_ws s with
      | "" => SyntaxError
      | String c r =>
          if decide (c = "n"%char) then literal "ull" JNull r
          else if decide (c = "t"%char) then literal "rue" (JBool true) r
          else if decide (c = "f"%char) then literal "alse" (JBool false) r
          else if decide (c = dquote) then
            bind (parse_chars r) (fun '(str, rest) => Ok (JStr str, rest))
          else if decide (c = "["%char) then
            match after "]" (skip_ws r) with
            | Some rest => Ok (JArr [], rest)
            | None =>
                bind (parse_elements fuel' r)
                     (fun '(items, rest) => Ok (JArr items, rest))
            end
          else if decide (c = "{"%char) then
            match after "}" (skip_ws r) with
            | Some rest => Ok (JObj [], rest)
            | None =>
                bind (parse_members fuel' r)
                     (fun '(members, rest) =>
                        Ok (JObj (make_object members), rest))
            end
          else if is_digit c || bool_decide (c = "-"%char) then
            bind (parse_number (String c r))
                 (fun '(n, rest) => Ok (JNum n, rest))
          else SyntaxError
      end
  end

with parse_elements (fuel : nat) (s : string)
  : Result (list JSValue * string) :=
  match fuel with
  | O => OutOfFuel
  | S fuel' =>
      bind (parse_value fuel' s) (fun '(v, r) =>
        match after "," (skip_ws r), after "]" (skip_ws r) with
        | Some r', _ =>
            bind (parse_elements fuel' r')
                 (fun '(vs, rest) => Ok (v :: vs, rest))
        | None, Some rest => Ok ([v], rest)
        | None, None => SyntaxError
        end)
  end

with parse_members (fuel : nat) (s : string)
  : Result (list (string * JSValue) * string) :=
  match fuel with
  | O => OutOfFuel
  | S fuel' =>
      match after dquote (skip_ws s) with
      | None => SyntaxError
      | Some r =>
          bind (parse_chars r) (fun '(k, r1) =>
            match after ":" (skip_ws r1) with
            | None => SyntaxError
            | Some r2 =>
                bind (parse_value fuel' r2) (fun '(v, r3) =>
                  match after "," (skip_ws r3), after "}" (skip_ws r3) with
                  | Some r4, _ =>
                      bind (parse_members fuel' r4)
                           (fun '(ms, rest) => key_ok k ((k, v) :: ms, rest))
                  | None, Some rest => key_ok k ([(k, v)], rest)
                  | None, None => SyntaxError
                  end)
            end)
      end
  end.

(** [JSON.parse(text)]: one value, then only white space. *)
Definition parse (text : string) : Result JSValue :=
  bind (parse_value (2 * String.length text + 1) text) (fun '(v, rest) =>
    match skip_ws rest with
    | "" => Ok v
    | String _ _ => SyntaxError
    end).

(** Objects have distinct keys, none of them an integer index, at every
    depth. *)
#[local] Unset Elimination Schemes.
Inductive well_formed : JSValue -> Prop :=
  | wf_null : well_formed JNull
  | wf_bool b : well_formed (JBool b)
  | wf_num n : well_formed (JNum n)
  | wf_str s : well_formed (JStr s)
  | wf_arr items : Forall well_formed items -> well_formed (JArr items)
  | wf_obj fields :
      NoDup (map fst fields) ->
      Forall (fun kv => is_integer_index (fst kv) = false) fields ->
      Forall (fun kv => well_formed (snd kv)) fields ->
      well_formed (JObj fields).
#[local] Set Elimination Schemes.

(** The number of nested calls parsing the printed value takes. *)
Fixpoint size (v : JSValue) : nat :=
  match v with
  | JArr items => S (list_sum (map (fun x => S (size x)) items))
  | JObj fields => S (list_sum (map (fun kv => S (size (snd kv))) fields))
  | _ => 1
  end.

(** What can follow a value inside the printed text. *)
Definition delimited (rest : string) : bool :=
  match rest with
  | "" => true
  | String c _ =>
      bool_decide (c = ","%char) || bool_decide (c = "]"%char)
      || bool_decide (c = "}"%char)
  end.

(** [parse_value] reads the printed text of [v] back, whatever follows
    it, given fuel for [size v] nested calls. *)
Definition reads_back (v : JSValue) : Prop :=
  well_formed v ->
  forall fuel rest,
    (size v <= fuel)%nat -> delimited rest = true ->
    parse_value fuel (stringify v +:+ rest) = Ok (v, rest).

(** The first character of a value. *)
Definition value_start (c : ascii) : bool :=
  is_digit c || bool_decide (c = "-"%char) || bool_decide (c = "n"%char)
  || bool_decide (c = "t"%char) || bool_decide (c = "f"%char)
  || bool_decide (c = dquote) || bool_decide (c = "["%char)
  || bool_decide (c = "{"%char).

End JSON.

(** ** TodoManager *)

(** A task object [{ id, text, completed }]. *)
Record Task := mkTask {
  task_id : Z;
  text : string;
  completed : bool
}.

(** An [<li>] that [render] builds: its class, the state of its
    checkbox, the text of its span, and the task id its three handlers
    captured. *)
Record TodoItem := mkItem {
  className : string;
  checked : bool;
  textContent : string;
  handler_id : Z
}.

(** [this.tasks], the value of the input box, the children of the list
    element, and [localStorage]. *)
Record TodoManager := mkTodo {
  tasks : list Task;
  inputEl : string;
  listEl : list TodoItem;
  localStorage : gmap string string
}.

Module Todo.

Definition storage_key : string := "pomodoro-tasks".

(** The JavaScript value of a task and of the task array. *)
Definition js_of_task (t : Task) : JSValue :=
  JObj [("id", JNum (task_id t)); ("text", JStr (text t));
        ("completed", JBool (completed t))].

Definition js_of_tasks (l : list Task) : JSValue :=
  JArr (map js_of_task l).

(** Reading a value back as a task array; [None] when it is not one. *)
Definition task_of_js (v : JSValue) : option Task :=
  match v with
  | JObj [(k1, JNum i); (k2, JStr s); (k3, JBool c)] =>
      if decide (k1 = "id" /\ k2 = "text" /\ k3 = "completed")
      then Some (mkTask i s c) else None
  | _ => None
  end.

Definition tasks_of_js (v : JSValue) : option (list Task) :=
  match v with
  | JArr items => mapM task_of_js items
  | _ => None
  end.

(** ToBoolean. *)
Definition truthy (v : JSValue) : bool :=
  match v with
  | JNull => false
  | JBool b => b
  | JNum n => negb (n =? 0)
  | JStr s => negb (bool_decide (s = ""))
  | JArr _ | JObj _ => true
  end.

(** [localStorage.getItem(key)]: [None] is [null]. *)
Definition getItem (key : string) (ls : gmap string string) : option string :=
  ls !! key.

Definition setItem (key value : string) (ls : gmap string string)
  : gmap string string :=
  <[key := value]> ls.

(** The constructor's
    [JSON.parse(localStorage.getItem('pomodoro-tasks')) || []];
    [JSON.parse] converts its argument to a string first, so [null]
    is read as the text ["null"]. *)
Definition stored_tasks (ls : gmap string string) : JSON.Result JSValue :=
  let arg := match getItem storage_key ls with
             | Some s => s
             | None => "null"
             end in
  JSON.bind (JSON.parse arg)
            (fun v => JSON.Ok (if truthy v then v else JArr [])).

Definition set_tasks (l : list Task) (m : TodoManager) : TodoManager :=
  mkTodo l (inputEl m) (listEl m) (localStorage m).

Definition set_inputEl (v : string) (m : TodoManager) : TodoManager :=
  mkTodo (tasks m) v (listEl m) (localStorage m).

Definition save (m : TodoManager) : TodoManager :=
  mkTodo (tasks m) (inputEl m) (listEl m)
         (setItem storage_key (JSON.stringify (js_of_tasks (tasks m)))
                  (localStorage m)).

Definition render_item (t : Task) : TodoItem :=
  mkItem ("todo-item " +:+ (if completed t then "completed" else ""))
         (completed t) (text t) (task_id t).

Definition render (m : TodoManager) : TodoManager :=
  mkTodo (tasks m) (inputEl m) (map render_item (tasks m)) (localStorage m).

(** After a mutation the stored text and the rendered list in step
    with [this.tasks]. *)
Definition in_sync (m : TodoManager) : Prop :=
  getItem storage_key (localStorage m)
    = Some (JSON.stringify (js_of_tasks (tasks m))) /\
  listEl m = map render_item (tasks m).

(** [addTask()] at time [now = Date.now()]. *)
Definition addTask (now : Z) (m : TodoManager) : TodoManager :=
  let text := JS.trim (inputEl m) in
  if decide (text = "") then m
  else
    let task := mkTask now text false in
    let m := set_tasks (task :: tasks m) m in
    let m := save m in
    let m := render m in
    set_inputEl "" m.

Definition toggle (t : Task) : Task :=
  mkTask (task_id t) (text t) (negb (completed t)).

(** [toggleTask(id)]: [find] returns the first task with that id, and
    the assignment updates that element of the array in place. *)
Definition toggleTask (id : Z) (m : TodoManager) : TodoManager :=
  match list_find (fun t => task_id t = id) (tasks m) with
  | Some (i, task) =>
      let m := set_tasks (<[i := toggle task]> (tasks m)) m in
      let m := save m in
      render m
  | None => m
  end.

Definition deleteTask (id : Z) (m : TodoManager) : TodoManager :=
  let m := set_tasks (filter (fun t => task_id t <> id) (tasks m)) m in
  let m := save m in
  render m.

(** The constructor followed by [init]'s [render], for a page whose
    stored value is a task array; [None] when [JSON.parse] throws or
    the stored value is something else. *)
Definition new (ls : gmap string string) : option TodoManager :=
  match stored_tasks ls with
  | JSON.Ok v =>
      match tasks_of_js v with
      | Some l => Some (render (mkTodo l "" [] ls))
      | None => None
      end
  | _ => None
  end.

End Todo.

(** ** The timer's controls *)

(** A duration chip of the page: its [data-time] attribute, read with
    [parseInt], and whether it carries the class [active]. *)
Record Chip := mkChip {
  data_time : Z;
  chip_active : bool
}.

(** The timer together with the chips [init] wires to it. *)
Record TimerPage := mkTimerPage {
  timer : PomodoroTimer;
  modeChips : list Chip
}.

Module TimerUI.

(** What can happen to the timer: a click on the start/pause button, on
    the reset button, on the [i]-th chip, or a second passing while an
    interval is registered. *)
Inductive Event :=
  | ClickStartPause
  | ClickReset
  | ClickChip (i : nat)
  | Second.

(** The chip handler's class update: [active] is removed from every
    chip and added to the clicked one. *)
Definition select (i : nat) (chips : list Chip) : list Chip :=
  imap (fun j c => mkChip (data_time c) (bool_decide (j = i))) chips.

(** The listeners [init] registers.  [None]: the event cannot occur
    (there is no such chip, or no interval is registered). *)
Definition handle (e : Event) (p : TimerPage) : option TimerPage :=
  match e with
  | ClickStartPause =>
      Some (mkTimerPage (Timer.toggleTimer (timer p)) (modeChips p))
  | ClickReset =>
      Some (mkTimerPage (Timer.resetTimer (timer p)) (modeChips p))
  | ClickChip i =>
      match modeChips p !! i with
      | Some chip =>
          Some (mkTimerPage (Timer.setTime (data_time chip) (timer p))
                            (select i (modeChips p)))
      | None => None
      end
  | Second =>
      match Timer.tick (timer p) with
      | Some t => Some (mkTimerPage t (modeChips p))
      | None => None
      end
  end.

Fixpoint run (events : list Event) (p : TimerPage) : option TimerPage :=
  match events with
  | [] => Some p
  | e :: rest =>
      match handle e p with
      | Some p' => run rest p'
      | None => None
      end
  end.

(** The page once [new PomodoroTimer()] has run. *)
Definition load (chips : list Chip) (state0 startBtn0 title0 : string)
  : TimerPage :=
  mkTimerPage (Timer.new state0 startBtn0 title0) chips.

(** The time on the page and in the tab title is the remaining time. *)
Definition shown (t : PomodoroTimer) : Prop :=
  timeDisplay t = Timer.display_text (timeLeft t) /\
  title t = Timer.display_text (timeLeft t) +:+ " - ZenFocus".

(** The highlighted chip, if any, is the one whose duration is loaded,
    and no two chips are highlighted. *)
Definition highlight_matches (p : TimerPage) : Prop :=
  forall i c, modeChips p !! i = Some c -> chip_active c = true ->
    originalTime (timer p) = data_time c * 60 /\
    forall j c', modeChips p !! j = Some c' -> chip_active c' = true -> j = i.

(** The four presets of the page, the 30 minute one highlighted. *)
Definition presets : list Chip :=
  [mkChip 15 false; mkChip 30 true; mkChip 45 false; mkChip 60 false].

End TimerUI.

(** ** The to-do list's controls *)

Module TodoUI.

(** What the user can do: change the text in the input box; add (a
    click on the add button, or Enter in the input box) at time [now];
    toggle the [j]-th rendered item (its checkbox or its text); delete
    it (its delete button). *)
Inductive Event :=
  | Input (value : string)
  | Add (now : Z)
  | Toggle (j : nat)
  | Delete (j : nat).

(** The listeners of [init] and [render]; the handlers of a rendered
    item call [toggleTask] and [deleteTask] with the id [render]
    captured.  [None]: there is no such item to click. *)
Definition handle (e : Event) (m : TodoManager) : option TodoManager :=
  match e with
  | Input value => Some (Todo.set_inputEl value m)
  | Add now => Some (Todo.addTask now m)
  | Toggle j =>
      match listEl m !! j with
      | Some li => Some (Todo.toggleTask (handler_id li) m)
      | None => None
      end
  | Delete j =>
      match listEl m !! j with
      | Some li => Some (Todo.deleteTask (handler_id li) m)
      | None => None
      end
  end.

Fixpoint run (events : list Event) (m : TodoManager) : option TodoManager :=
  match events with
  | [] => Some m
  | e :: rest =>
      match handle e m with
      | Some m' => run rest m'
      | None => None
      end
  end.

(** A reload would bring back the current list, and the page shows
    it. *)
Definition restorable (m : TodoManager) : Prop :=
  tasks <$> Todo.new (localStorage m) = Some (tasks m) /\
  listEl m = map Todo.render_item (tasks m).

End TodoUI.

(** ** BackgroundManager *)

(** A child of the saved-backgrounds grid: a button [addSavedOption]
    created (its [title], the data URI in its background and in its
    click handler, whether it carries the class [active]), or the
    upload label of the page's markup. *)
Inductive GridChild :=
  | SavedOption (name data : string) (active : bool)
  | UploadLabel.

(** The object and the elements it acts on: the store, the value last
    assigned to the background layer's [style.backgroundImage] ([None]:
    never assigned), the preset options of the markup (their [data-bg]
    and whether they are [active]), the children of the grid, whether
    the settings modal is hidden, the alerts shown and the messages
    logged with [console.error]. *)
Record BackgroundManager := mkBackground {
  storage : ImageStorage;
  layer : option string;
  presetOptions : list (string * bool);
  savedGrid : list GridChild;
  modal_hidden : bool;
  bg_alerts : list string;
  console_errors : list string
}.

Module Background.

Definition set_storage (v : ImageStorage) (b : BackgroundManager) :=
  mkBackground v (layer b) (presetOptions b) (savedGrid b) (modal_hidden b)
               (bg_alerts b) (console_errors b).

Definition set_layer (v : string) (b : BackgroundManager) :=
  mkBackground (storage b) (Some v) (presetOptions b) (savedGrid b)
               (modal_hidden b) (bg_alerts b) (console_errors b).

Definition set_savedGrid (v : list GridChild) (b : BackgroundManager) :=
  mkBackground (storage b) (layer b) (presetOptions b) v (modal_hidden b)
               (bg_alerts b) (console_errors b).

Definition set_modal_hidden (v : bool) (b : BackgroundManager) :=
  mkBackground (storage b) (layer b) (presetOptions b) (savedGrid b) v
               (bg_alerts b) (console_errors b).

Definition alert (msg : string) (b : BackgroundManager) :=
  mkBackground (storage b) (layer b) (presetOptions b) (savedGrid b)
               (modal_hidden b) (bg_alerts b ++ [msg])%list (console_errors b).

Definition console_error (msg : string) (b : BackgroundManager) :=
  mkBackground (storage b) (layer b) (presetOptions b) (savedGrid b)
               (modal_hidden b) (bg_alerts b) (console_errors b ++ [msg])%list.

Definition setPreset (type : string) (b : BackgroundManager) : BackgroundManager :=
  if decide (type = "pastel") then
    set_layer
      "linear-gradient(135deg, #052f57 0%, #4f6daa 50%, #B3E5FC 100%)" b
  else if decide (type = "gradient") then
    set_layer
      "linear-gradient(135deg, #a80077 0%, #db7093 50%, #ffc0cb 100%)" b
  else b.

Definition setBackgroundImage (dataUrl : string) (b : BackgroundManager)
  : BackgroundManager :=
  set_layer ("url(" +:+ dataUrl +:+ ")") b.

(** An option of the page: the [i]-th preset or the [j]-th child of the
    grid. *)
Inductive Target :=
  | PresetTarget (i : nat)
  | SavedTarget (j : nat).

#[global] Instance Target_eq_dec : EqDecision Target.
Proof. solve_decision. Defined.

(** [setActive(target)]: [active] is removed from every option and
    added to the target. *)
Definition setActive (target : Target) (b : BackgroundManager)
  : BackgroundManager :=
  mkBackground (storage b) (layer b)
    (imap (fun i (o : string * bool) =>
             (fst o, bool_decide (target = PresetTarget i)))
          (presetOptions b))
    (imap (fun j (c : GridChild) =>
             match c with
             | SavedOption name data _ =>
                 SavedOption name data (bool_decide (target = SavedTarget j))
             | UploadLabel => UploadLabel
             end) (savedGrid b))
    (modal_hidden b) (bg_alerts b) (console_errors b).

(** [savedGrid.insertBefore(btn, uploadLabel)]: before the upload label,
    at the end when there is none. *)
Fixpoint insert_before_label (btn : GridChild) (children : list GridChild)
  : list GridChild :=
  match children with
  | [] => [btn]
  | UploadLabel :: rest => btn :: UploadLabel :: rest
  | c :: rest => c :: insert_before_label btn rest
  end.

Definition addSavedOption (item : ImageRecord) (b : BackgroundManager)
  : BackgroundManager :=
  set_savedGrid
    (insert_before_label (SavedOption (img_name item) (img_data item) false)
                         (savedGrid b)) b.


Definition loadSavedImages (b : BackgroundManager) : BackgroundManager :=
  match Storage.getAllImages (storage b) with
  | Resolved images => fold_left (fun b img => addSavedOption img b) images b
  | Rejected _ => console_error "Error loading images" b
  end.

(** The [change] listener of the upload input, at time [now], for the
    first selected file ([None]: no file selected). *)
Definition upload (now : Z) (file : option File) (b : BackgroundManager)
  : BackgroundManager :=
  match file with
  | None => b
  | Some f =>
      match Storage.saveImage now f (storage b) with
      | (Resolved savedItem, storage') =>
          let b := set_storage storage' b in
          let b := addSavedOption savedItem b in
          let b := setBackgroundImage (img_data savedItem) b in
          set_modal_hidden true b
      | (Rejected _, storage') =>
          let b := set_storage storage' b in
          let b := console_error "Failed to save image" b in
          alert "Could not save image to storage." b
      end
  end.

Inductive Event :=
  | OpenSettings
  | CloseSettings
  | ClickPreset (i : nat)
  | ClickSaved (j : nat)
  | Upload (now : Z) (file : option File).

(** The listeners of [init] and [addSavedOption].  [None]: there is no
    such option to click. *)
Definition handle (e : Event) (b : BackgroundManager)
  : option BackgroundManager :=
  match e with
  | OpenSettings => Some (set_modal_hidden false b)
  | CloseSettings => Some (set_modal_hidden true b)
  | ClickPreset i =>
      match presetOptions b !! i with
      | Some opt => Some (setActive (PresetTarget i) (setPreset (fst opt) b))
      | None => None
      end
  | ClickSaved j =>
      match savedGrid b !! j with
      | Some (SavedOption _ data _) =>
          Some (setActive (SavedTarget j) (setBackgroundImage data b))
      | _ => None
      end
  | Upload now file => Some (upload now file b)
  end.

Fixpoint run (events : list Event) (b : BackgroundManager)
  : option BackgroundManager :=
  match events with
  | [] => Some b
  | e :: rest =>
      match handle e b with
      | Some b' => run rest b'
      | None => None
      end
  end.

(** The constructor, for a store whose [initPromise] has settled and
    the options, grid and modal of the page's markup. *)
Definition new (store : ImageStorage) (presets : list (string * bool))
    (grid : list GridChild) (hidden : bool) : BackgroundManager :=
  loadSavedImages (mkBackground store None presets grid hidden [] []).

(** The saved options of a grid, as (name, data). *)
Definition option_key (c : GridChild) : option (string * string) :=
  match c with
  | SavedOption name data _ => Some (name, data)
  | UploadLabel => None
  end.

Definition saved_options (children : list GridChild) : list (string * string) :=
  omap option_key children.

(** The images a store holds, as (name, data), in listing order. *)
Definition stored_images (s : ImageStorage) : list (string * string) :=
  match s with
  | Opened images => (fun r => (img_name r, img_data r)) <$> IDB.getAll images
  | OpenFailed _ => []
  end.

(** The button [addSavedOption] creates for a record. *)
Definition option_of (r : ImageRecord) : GridChild :=
  SavedOption (img_name r) (img_data r) false.

End Background.

(** ** MotivationManager *)

(** The index of the message on display, the text of the display
    element, whether it carries the class [fade-out], and the number of
    timeouts [nextMessage] has scheduled that did not fire yet. *)
Record MotivationManager := mkMotivation {
  currentIndex : nat;
  display : string;
  fade_out : bool;
  pending : nat
}.

Module Motivation.

Definition messages : list string :=
  [ "Focus on the step in front of you, not the whole staircase.";
    "believe in yourself!";
    "Small steps every day.";
    "You are doing great!";
    "Keep pushing forward.";
    "Dream big, work hard.";
    "Stay positive, work hard, make it happen.";
    "Your potential is endless.";
    "Be proud of how far you've come." ].

(** [this.messages[i]] inside a template literal. *)
Definition message_at (i : nat) : string :=
  match messages !! i with
  | Some msg => msg
  | None => "undefined"
  end.

(** [nextMessage()] up to its [setTimeout]. *)
Definition nextMessage (m : MotivationManager) : MotivationManager :=
  mkMotivation (currentIndex m) (display m) true (S (pending m)).

(** The callback [nextMessage] passes to [setTimeout]. *)
Definition on_timeout (m : MotivationManager) : MotivationManager :=
  let i := ((currentIndex m + 1) mod length messages)%nat in
  mkMotivation i
    (String JSON.dquote (message_at i +:+ String JSON.dquote ""))
    false (pred (pending m)).

(** The ten-second interval of [init] firing, or a scheduled timeout
    firing. *)
Inductive Event :=
  | TenSeconds
  | Timeout.

#[global] Instance Event_eq_dec : EqDecision Event.
Proof. solve_decision. Defined.

Definition handle (e : Event) (m : MotivationManager)
  : option MotivationManager :=
  match e with
  | TenSeconds => Some (nextMessage m)
  | Timeout => if decide (pending m = 0%nat) then None else Some (on_timeout m)
  end.

Fixpoint run (events : list Event) (m : MotivationManager)
  : option MotivationManager :=
  match events with
  | [] => Some m
  | e :: rest =>
      match handle e m with
      | Some m' => run rest m'
      | None => None
      end
  end.

(** The constructor, for the text the markup puts in the display. *)
Definition new (display0 : string) : MotivationManager :=
  mkMotivation 0 display0 false 0.

(** How many messages have been put on display. *)
Definition shown_count (events : list Event) : nat :=
  length (filter (fun e => e = Timeout) events).

End Motivation.

(** ** AudioMixer *)

(** The mixer's control flow.  The samples of the noise buffer and the
    filter node play no part in it and are left out; of the volume
    [parseFloat] returns only the two tests the handler makes are used,
    [vol > 0] and [vol === 0], which never hold together. *)
Section AudioMixerModel.

Variable Volume : Type.
Variable positive : Volume -> bool.
Variable zero : Volume -> bool.

(** [this.rainNode] and [this.rainGain] (node handles, [None] for
    [null]), the buffer sources started and not stopped, the gain nodes
    connected to the destination, the value each gain was last set or
    steered to, and the next node handle. *)
Record AudioMixer := mkMixer {
  rainNode : option nat;
  rainGain : option nat;
  sources_playing : gset nat;
  gains_connected : gset nat;
  gain_target : gmap nat Volume;
  next_node : nat
}.

(** [startRain()], the slider standing at [sliderValue]. *)
Definition startRain (sliderValue : Volume) (a : AudioMixer) : AudioMixer :=
  let whiteNoise := next_node a in
  let gain := S (next_node a) in
  mkMixer (Some whiteNoise) (Some gain)
          ({[whiteNoise]} ∪ sources_playing a)
          ({[gain]} ∪ gains_connected a)
          (<[gain := sliderValue]> (gain_target a))
          (S (S (next_node a))).

Definition stopRain (a : AudioMixer) : AudioMixer :=
  match rainNode a with
  | Some node =>
      mkMixer None (rainGain a) (sources_playing a ∖ {[node]})
              (gains_connected a) (gain_target a) (next_node a)
  | None => a
  end.

Definition setTarget (vol : Volume) (a : AudioMixer) : AudioMixer :=
  match rainGain a with
  | Some gain =>
      mkMixer (rainNode a) (rainGain a) (sources_playing a)
              (gains_connected a) (<[gain := vol]> (gain_target a))
              (next_node a)
  | None => a
  end.

(** The [input] listener of the volume slider. *)
Definition on_input (vol : Volume) (a : AudioMixer) : AudioMixer :=
  let a := if positive vol && negb (bool_decide (is_Some (rainNode a)))
           then startRain vol a else a in
  let a := setTarget vol a in
  if zero vol && bool_decide (is_Some (rainNode a)) then stopRain a else a.

Definition inputs (vols : list Volume) (a : AudioMixer) : AudioMixer :=
  fold_left (fun a vol => on_input vol a) vols a.

(** The constructor. *)
Definition new_mixer : AudioMixer := mkMixer None None ∅ ∅ ∅ 0.

End AudioMixerModel.

Arguments rainNode {Volume} _.
Arguments rainGain {Volume} _.
Arguments sources_playing {Volume} _.
Arguments gains_connected {Volume} _.
Arguments gain_target {Volume} _.
Arguments next_node {Volume} _.
Arguments new_mixer {Volume}.
Arguments startRain {Volume} _ _.
Arguments stopRain {Volume} _.
Arguments setTarget {Volume} _ _.
Arguments on_input {Volume} _ _ _ _.
Arguments inputs {Volume} _ _ _ _.

(** Exactly the node in [rainNode] is playing, and it has its gain. *)
Definition one_source {Volume} (a : AudioMixer Volume) : Prop :=
  sources_playing a = match rainNode a with
                      | Some node => {[node]}
                      | None => ∅
                      end /\
  (is_Some (rainNode a) -> is_Some (rainGain a)).

(** * Properties *)

(** ** Properties of the timer *)

Section TimerFacts.

Import Timer.

Lemma pauseTimer_timeLeft t : timeLeft (pauseTimer t) = timeLeft t.
Proof. reflexivity. Qed.

Lemma pauseTimer_isRunning t : isRunning (pauseTimer t) = false.
Proof. reflexivity. Qed.

Lemma pauseTimer_alerts t : alerts (pauseTimer t) = alerts t.
Proof. reflexivity. Qed.

Lemma pauseTimer_intervals t :
  consistent t -> intervals (pauseTimer t) = ∅.
Proof.
  unfold consistent, pauseTimer; cbn.
  destruct (isRunning t).
  - intros (h & Hi & Hs). rewrite Hi, Hs. apply difference_diag_L.
  - intros Hs. rewrite Hs. destruct (interval t); [|reflexivity].
    apply set_eq. intros x. rewrite elem_of_difference.
    split; [now intros [H _]|intros H; now apply not_elem_of_empty in H].
Qed.

Lemma pauseTimer_consistent t : consistent t -> consistent (pauseTimer t).
Proof.
  intros H. unfold consistent. rewrite pauseTimer_isRunning.
  now apply pauseTimer_intervals.
Qed.

Lemma startTimer_consistent t : consistent t -> consistent (startTimer t).
Proof.
  unfold consistent, startTimer.
  destruct (isRunning t) eqn:E; [now rewrite E|].
  cbn. intros Hs. rewrite Hs. exists (next_handle t).
  split; [reflexivity|apply (right_id_L _ _)].
Qed.

Lemma startTimer_isRunning t : isRunning (startTimer t) = true.
Proof. unfold startTimer. destruct (isRunning t) eqn:E; [exact E|done]. Qed.

Lemma startTimer_timeLeft t : timeLeft (startTimer t) = timeLeft t.
Proof. unfold startTimer. now destruct (isRunning t). Qed.

Lemma startTimer_originalTime t : originalTime (startTimer t) = originalTime t.
Proof. unfold startTimer. now destruct (isRunning t). Qed.

Lemma startTimer_alerts t : alerts (startTimer t) = alerts t.
Proof. unfold startTimer. now destruct (isRunning t). Qed.

Lemma startTimer_running_noop t : isRunning t = true -> startTimer t = t.
Proof. unfold startTimer. now intros ->. Qed.

Lemma setTime_consistent m t : consistent t -> consistent (setTime m t).
Proof. intros H. unfold consistent. cbn. now apply pauseTimer_intervals. Qed.

Lemma resetTimer_consistent t : consistent t -> consistent (resetTimer t).
Proof. intros H. unfold consistent. cbn. now apply pauseTimer_intervals. Qed.

Lemma completeTimer_consistent t : consistent t -> consistent (completeTimer t).
Proof. intros H. unfold consistent. cbn. now apply pauseTimer_intervals. Qed.

Lemma toggleTimer_consistent t : consistent t -> consistent (toggleTimer t).
Proof.
  unfold toggleTimer. destruct (isRunning t);
    auto using pauseTimer_consistent, startTimer_consistent.
Qed.

Lemma new_consistent s b d : consistent (new s b d).
Proof. reflexivity. Qed.

(** A tick that does not exhaust the time only decrements [timeLeft]. *)
Lemma on_tick_running t :
  1 < timeLeft t ->
  timeLeft (on_tick t) = timeLeft t - 1 /\
  originalTime (on_tick t) = originalTime t /\
  isRunning (on_tick t) = isRunning t /\
  interval (on_tick t) = interval t /\
  intervals (on_tick t) = intervals t /\
  alerts (on_tick t) = alerts t.
Proof.
  intros H. unfold on_tick. cbn.
  destruct (timeLeft t - 1 <=? 0) eqn:E; [apply Z.leb_le in E; lia|].
  now cbn.
Qed.

(** The tick that exhausts the time completes the timer. *)
Lemma on_tick_expiry t :
  timeLeft t <= 1 ->
  on_tick t = completeTimer (updateDisplay (set_timeLeft (timeLeft t - 1) t)).
Proof.
  intros H. unfold on_tick. cbn.
  destruct (timeLeft t - 1 <=? 0) eqn:E; [done|apply Z.leb_gt in E; lia].
Qed.

Lemma on_tick_consistent t : consistent t -> consistent (on_tick t).
Proof.
  intros H. unfold on_tick.
  destruct (timeLeft _ <=? 0); [|exact H].
  now apply completeTimer_consistent.
Qed.

Lemma ticks_consistent k : forall t u,
  consistent t -> ticks k t = Some u -> consistent u.
Proof.
  induction k as [|k IH]; intros t u Hc; cbn [ticks].
  - now intros [= <-].
  - unfold tick. destruct (decide _); [discriminate|].
    apply IH. now apply on_tick_consistent.
Qed.

Lemma tick_running t :
  consistent t -> isRunning t = true -> tick t = Some (on_tick t).
Proof.
  unfold consistent, tick. intros H E. rewrite E in H.
  destruct H as (h & _ & Hs). rewrite Hs.
  destruct (decide _) as [He|]; [|reflexivity].
  exfalso. exact (non_empty_singleton_L h He).
Qed.

Lemma tick_paused t :
  consistent t -> isRunning t = false -> tick t = None.
Proof.
  unfold consistent, tick. intros H E. rewrite E in H. rewrite H.
  now destruct (decide _).
Qed.

(** [k] ticks of a running timer with more than [k] seconds left. *)
Lemma ticks_running k : forall t,
  consistent t -> isRunning t = true -> Z.of_nat k < timeLeft t ->
  exists t',
    ticks k t = Some t' /\
    consistent t' /\
    timeLeft t' = timeLeft t - Z.of_nat k /\
    originalTime t' = originalTime t /\
    isRunning t' = true /\
    alerts t' = alerts t.
Proof.
  induction k as [|k IH]; intros t Hc Hr Hk.
  - exists t. cbn. repeat split; auto; lia.
  - cbn [ticks]. rewrite tick_running by assumption.
    destruct (on_tick_running t) as (Hl & Ho & Hi & _ & _ & Ha); [lia|].
    destruct (IH (on_tick t)) as (t' & Ht & Hc' & Hl' & Ho' & Hr' & Ha').
    + now apply on_tick_consistent.
    + congruence.
    + lia.
    + exists t'. repeat split; auto; try congruence. lia.
Qed.

Lemma ticks_snoc k : forall t u,
  ticks k t = Some u -> ticks (S k) t = tick u.
Proof.
  induction k as [|k IH]; intros t u H.
  - injection H as <-. cbn. now destruct (tick t).
  - cbn [ticks] in H. change (ticks (S (S k)) t)
      with (match tick t with Some t' => ticks (S k) t' | None => None end).
    destruct (tick t) as [t'|]; [now apply IH|discriminate].
Qed.

End TimerFacts.

(** ** Decimal numerals *)

Section NumberFacts.

Import JS.

Lemma to_uint_unorm p : Pos.to_uint p = Decimal.unorm (Pos.to_uint p).
Proof.
  rewrite <- DecimalPos.Unsigned.to_of, DecimalPos.Unsigned.of_to.
  reflexivity.
Qed.

(** The numeral of a positive number does not start with the digit 0. *)
Lemma to_uint_head p d : Pos.to_uint p <> Decimal.D0 d.
Proof.
  intros E.
  pose proof (to_uint_unorm p) as Hu.
  pose proof (DecimalPos.Unsigned.to_uint_nonzero p) as Hz.
  unfold Decimal.unorm in Hu.
  destruct (Decimal.nzhead (Pos.to_uint p)) eqn:Hn;
    try (rewrite E in Hu; discriminate Hu).
  - contradiction.
  - now apply nzhead_nonzero in Hn.
Qed.

Lemma string_of_uint_head d :
  d <> Decimal.Nil -> (forall d', d <> Decimal.D0 d') ->
  exists c rest, NilEmpty.string_of_uint d = String c rest /\
                 c <> "0"%char /\ c <> "-"%char.
Proof.
  intros Hn Hz. destruct d; try congruence;
    eexists _, _; cbn; (split; [reflexivity|split; discriminate]).
Qed.

Lemma Number_toString_pos p :
  Number_toString (Z.pos p) = NilEmpty.string_of_uint (Pos.to_uint p).
Proof.
  unfold Number_toString. cbn.
  pose proof (DecimalPos.Unsigned.to_uint_nonnil p).
  now destruct (Pos.to_uint p).
Qed.

(** A non-negative integer prints as its canonical numeral: no sign, and
    no leading zero except for zero itself. *)
Lemma Number_toString_unpadded m :
  0 <= m ->
  Number_toString m = "0" \/
  exists c rest, Number_toString m = String c rest /\
                 c <> "0"%char /\ c <> "-"%char.
Proof.
  intros Hm. destruct m as [|p|p]; [now left| |lia].
  right. rewrite Number_toString_pos.
  apply string_of_uint_head.
  - apply DecimalPos.Unsigned.to_uint_nonnil.
  - intros d'. apply to_uint_head.
Qed.

(** Reading the printed numeral back gives the number. *)
Lemma Number_toString_value z :
  Z.of_int <$> NilZero.int_of_string (Number_toString z) = Some z.
Proof.
  unfold Number_toString. rewrite NilZero.isi.
  - cbn. now rewrite DecimalZ.of_to.
  - destruct z; cbn; try discriminate.
    intros [= E]. now apply (DecimalPos.Unsigned.to_uint_nonnil p).
  - destruct z; cbn; try discriminate.
    intros [= E]. now apply (DecimalPos.Unsigned.to_uint_nonnil p).
Qed.

(** Seconds below 60 always print as two digits once padded. *)
Lemma padStart_seconds s :
  0 <= s < 60 ->
  padStart 2 "0" (Number_toString s) =
  String (digit_char (s / 10)) (String (digit_char (s mod 10)) "").
Proof.
  intros Hs.
  assert (E : s = Z.of_nat (Z.to_nat s)) by lia.
  assert (Hn : (Z.to_nat s < 60)%nat) by lia.
  revert E Hn. generalize (Z.to_nat s). intros n -> Hn. clear Hs.
  do 60 (destruct n as [|n]; [vm_compute; reflexivity|]).
  lia.
Qed.

End NumberFacts.

(** ** The claims about the timer *)

Section TimerClaims.

Import Timer.

(** C1 (as stated, refuted): [setTime] takes minutes, so after
    [setTime(1)] the remaining time and the duration are 60, not 1. *)
Lemma C1_setTime_is_in_minutes :
  let t := setTime 1 (new "Focus" "Start" "ZenFocus") in
  0 < 1 /\
  ~ (timeLeft t = 1 /\ originalTime t = 1 /\ isRunning t = false).
Proof. cbn. split; [lia|]. intros (H & _). discriminate H. Qed.

(** C1 (amended): for every number of minutes [m > 0], after
    [setTime(m)] the recurring tick is cancelled (no interval is left
    registered, no tick can occur), the remaining time and the duration
    are both [60 * m] seconds, and the timer is paused. *)
Theorem C1_setTime m t :
  0 < m -> consistent t ->
  let t' := setTime m t in
  intervals t' = ∅ /\ tick t' = None /\
  timeLeft t' = 60 * m /\ originalTime t' = 60 * m /\
  isRunning t' = false.
Proof.
  intros Hm Hc t'.
  assert (Hi : intervals t' = ∅) by (apply (pauseTimer_intervals t Hc)).
  split; [exact Hi|]. split.
  - apply tick_paused; [now apply setTime_consistent|reflexivity].
  - subst t'. cbn. repeat split; lia.
Qed.

Lemma C1_setTime_witness :
  let t := startTimer (new "Focus" "Start" "ZenFocus") in
  let t' := setTime 15 t in
  isRunning t = true /\
  intervals t' = ∅ /\ tick t' = None /\
  timeLeft t' = 900 /\ originalTime t' = 900 /\ isRunning t' = false.
Proof.
  split; [reflexivity|].
  apply (C1_setTime 15 (startTimer (new "Focus" "Start" "ZenFocus"))).
  - lia.
  - apply startTimer_consistent, new_consistent.
Defined.

(** C2: with [d] seconds remaining, starting the timer, letting exactly
    [k] ticks occur ([0 <= k < d]) and pausing leaves [d - k] seconds
    and a paused timer with no tick pending; [pauseTimer] itself never
    changes the remaining time. *)
Theorem C2_start_ticks_pause d k t :
  consistent t -> timeLeft t = d -> 0 <= k < d ->
  (exists t',
     ticks (Z.to_nat k) (startTimer t) = Some t' /\
     timeLeft (pauseTimer t') = d - k /\
     isRunning (pauseTimer t') = false /\
     intervals (pauseTimer t') = ∅ /\
     tick (pauseTimer t') = None) /\
  (forall u, timeLeft (pauseTimer u) = timeLeft u).
Proof.
  intros Hc Hd Hk. split; [|reflexivity].
  destruct (ticks_running (Z.to_nat k) (startTimer t))
    as (t' & Ht & Hc' & Hl & _ & _ & _).
  - now apply startTimer_consistent.
  - apply startTimer_isRunning.
  - rewrite startTimer_timeLeft. lia.
  - exists t'. split; [exact Ht|].
    rewrite pauseTimer_timeLeft, Hl, startTimer_timeLeft.
    repeat split; [lia|now apply pauseTimer_intervals|].
    apply tick_paused; [now apply pauseTimer_consistent|reflexivity].
Qed.

Lemma C2_start_ticks_pause_witness :
  (exists t',
     ticks 3 (startTimer (setTime 1 (new "Focus" "Start" "ZenFocus")))
       = Some t' /\
     timeLeft (pauseTimer t') = 60 - 3 /\
     isRunning (pauseTimer t') = false /\
     intervals (pauseTimer t') = ∅ /\
     tick (pauseTimer t') = None) /\
  (forall u, timeLeft (pauseTimer u) = timeLeft u).
Proof.
  apply (C2_start_ticks_pause 60 3 (setTime 1 (new "Focus" "Start" "ZenFocus"))).
  - apply setTime_consistent, new_consistent.
  - reflexivity.
  - lia.
Defined.

(** C3: with the full duration [d > 0] remaining, starting the timer and
    letting it run until the remaining time reaches 0 takes [d] ticks;
    no notification is shown before the last of them, the last one shows
    exactly one (["Time is up!"]), unregisters the interval so that no
    further tick can occur, leaves the timer paused, and restores the
    remaining time to [d]. *)
Theorem C3_run_to_completion d t :
  0 < d -> consistent t -> timeLeft t = d -> originalTime t = d ->
  (forall k, (k < Z.to_nat d)%nat ->
     exists u, ticks k (startTimer t) = Some u /\
               alerts u = alerts t /\ isRunning u = true /\
               timeLeft u = d - Z.of_nat k) /\
  exists t',
    ticks (Z.to_nat d) (startTimer t) = Some t' /\
    alerts t' = (alerts t ++ ["Time is up!"])%list /\
    isRunning t' = false /\ intervals t' = ∅ /\ tick t' = None /\
    timeLeft t' = d.
Proof.
  intros Hd Hc Hl Ho.
  assert (Hbefore : forall k, (k < Z.to_nat d)%nat ->
     exists u, ticks k (startTimer t) = Some u /\ consistent u /\
               alerts u = alerts t /\ isRunning u = true /\
               timeLeft u = d - Z.of_nat k /\ originalTime u = d).
  { intros k Hk.
    destruct (ticks_running k (startTimer t))
      as (u & Hu & Hcu & Hlu & Hou & Hru & Hau).
    - now apply startTimer_consistent.
    - apply startTimer_isRunning.
    - rewrite startTimer_timeLeft. lia.
    - exists u. rewrite startTimer_timeLeft in Hlu.
      rewrite startTimer_originalTime in Hou.
      rewrite startTimer_alerts in Hau.
      repeat split; auto; congruence. }
  split.
  - intros k Hk. destruct (Hbefore k Hk) as (u & ? & ? & ? & ? & ? & ?).
    exists u. auto.
  - destruct (Hbefore (pred (Z.to_nat d))) as (u & Hu & Hcu & Hau & Hru & Hlu & Hou);
      [lia|].
    replace (Z.to_nat d) with (S (pred (Z.to_nat d))) by lia.
    rewrite (ticks_snoc _ _ _ Hu), (tick_running u Hcu Hru).
    rewrite on_tick_expiry by lia.
    eexists. split; [reflexivity|].
    set (v := updateDisplay (set_timeLeft (timeLeft u - 1) u)).
    assert (Hcv : consistent v) by exact Hcu.
    assert (Hi : intervals (completeTimer v) = ∅)
      by apply (pauseTimer_intervals v Hcv).
    repeat split.
    + cbn. now rewrite Hau.
    + exact Hi.
    + apply tick_paused; [now apply completeTimer_consistent|reflexivity].
    + cbn. exact Hou.
Qed.

Lemma C3_run_to_completion_witness :
  let t := setTime 1 (new "Focus" "Start" "ZenFocus") in
  (forall k, (k < 60)%nat ->
     exists u, ticks k (startTimer t) = Some u /\
               alerts u = [] /\ isRunning u = true /\
               timeLeft u = 60 - Z.of_nat k) /\
  exists t',
    ticks 60 (startTimer t) = Some t' /\
    alerts t' = ["Time is up!"] /\
    isRunning t' = false /\ intervals t' = ∅ /\ tick t' = None /\
    timeLeft t' = 60.
Proof.
  apply (C3_run_to_completion 60 (setTime 1 (new "Focus" "Start" "ZenFocus"))).
  - lia.
  - apply setTime_consistent, new_consistent.
  - reflexivity.
  - reflexivity.
Defined.

(** C5: for every remaining time [r >= 0], [updateDisplay] writes
    [M:SS], where [M] is the unpadded decimal numeral of [floor(r/60)]
    and [SS] the two digits of [r mod 60]; 125 gives ["2:05"] and 59
    gives ["0:59"]. *)
Theorem C5_display_format r t :
  0 <= r -> timeLeft t = r ->
  (exists M,
     timeDisplay (updateDisplay t) =
       M +:+ ":" +:+
       String (JS.digit_char ((r mod 60) / 10))
              (String (JS.digit_char ((r mod 60) mod 10)) "") /\
     Z.of_int <$> NilZero.int_of_string M = Some (r / 60) /\
     (M = "0" \/
      exists c rest, M = String c rest /\ c <> "0"%char /\ c <> "-"%char)) /\
  display_text 125 = "2:05" /\ display_text 59 = "0:59".
Proof.
  intros Hr Hl. split; [|split; reflexivity].
  exists (JS.Number_toString (r / 60)).
  assert (Hm : 0 <= r / 60) by (apply Z.div_pos; lia).
  split; [|split].
  - cbn. rewrite Hl. unfold display_text, JS.floor_div, JS.remainder.
    rewrite Z.rem_mod_nonneg by lia.
    rewrite padStart_seconds; [reflexivity|].
    apply Z.mod_pos_bound. lia.
  - apply Number_toString_value.
  - now apply Number_toString_unpadded.
Qed.

Lemma C5_display_format_witness :
  (exists M,
     timeDisplay (updateDisplay (set_timeLeft 125 (new "Focus" "Start" "ZenFocus"))) =
       M +:+ ":" +:+ String "0"%char (String "5"%char "") /\
     Z.of_int <$> NilZero.int_of_string M = Some 2 /\
     (M = "0" \/
      exists c rest, M = String c rest /\ c <> "0"%char /\ c <> "-"%char)) /\
  display_text 125 = "2:05" /\ display_text 59 = "0:59".
Proof.
  apply (C5_display_format 125 (set_timeLeft 125 (new "Focus" "Start" "ZenFocus")));
    [lia|reflexivity].
Defined.

End TimerClaims.

(** ** Properties of the image store *)

Section StorageFacts.

Implicit Types (os : IDB.ObjectStore) (r : ImageRecord).

(** [getAll] lists exactly the stored records. *)
Lemma elem_of_getAll r os :
  r ∈ IDB.getAll os <-> os !! img_id r = Some (img_name r, img_data r).
Proof.
  unfold IDB.getAll. rewrite list_elem_of_fmap. split.
  - intros ([k [n d]] & -> & Hin). cbn.
    rewrite merge_sort_Permutation in Hin.
    now apply elem_of_map_to_list in Hin.
  - intros H. exists (img_id r, (img_name r, img_data r)). split.
    + now destruct r.
    + rewrite merge_sort_Permutation. now apply elem_of_map_to_list.
Qed.

Lemma getAll_delete r id os :
  r ∈ IDB.getAll (IDB.delete id os) <-> r ∈ IDB.getAll os /\ img_id r <> id.
Proof.
  rewrite !elem_of_getAll. unfold IDB.delete.
  destruct (decide (img_id r = id)) as [->|Hne].
  - rewrite lookup_delete_eq. split; [discriminate|now intros [_ []]].
  - rewrite lookup_delete_ne by congruence. tauto.
Qed.

Lemma getAll_add item os os' r :
  IDB.add item os = Some os' ->
  r ∈ IDB.getAll os' <-> r = item \/ r ∈ IDB.getAll os.
Proof.
  unfold IDB.add. destruct (os !! img_id item) eqn:E; [discriminate|].
  intros [= <-]. rewrite !elem_of_getAll.
  destruct (decide (img_id r = img_id item)) as [Heq|Hne].
  - rewrite Heq, lookup_insert_eq, E. split.
    + intros [= Hn Hd]. left. destruct r, item; cbn in *; congruence.
    + intros [->|]; [reflexivity|discriminate].
  - rewrite lookup_insert_ne by congruence. split; [tauto|].
    intros [->|]; [contradiction|assumption].
Qed.

(** Listing is in ascending key order. *)
Lemma getAll_sorted os :
  Sorted (fun a b => img_id a <= img_id b) (IDB.getAll os).
Proof.
  unfold IDB.getAll.
  assert (Hs : Sorted IDB.key_le (merge_sort IDB.key_le (map_to_list os))).
  { assert (Total IDB.key_le) by (intros a b; unfold IDB.key_le; lia).
    apply (Sorted_merge_sort IDB.key_le). }
  induction Hs as [|a l Hs IH Hhd]; cbn; constructor; [exact IH|].
  destruct Hhd; cbn; constructor. assumption.
Qed.

(** When the database could not be opened every operation rejects and
    nothing changes. *)
Lemma OpenFailed_rejects e now file id :
  let s := OpenFailed e in
  let err := DBError ("DB Error: " +:+ e) in
  Storage.saveImage now file s = (Rejected err, s) /\
  Storage.getAllImages s = Rejected err /\
  Storage.deleteImage id s = (Rejected err, s).
Proof. now cbn. Qed.

End StorageFacts.

Section StorageClaims.

Import Storage.

(** C4 (as stated, refuted): the id is the time stamp and [add] refuses
    a key that is already stored, so saving ["a.png"] in the millisecond
    in which another image was saved rejects, and ["a.png"] is not
    listed afterwards. *)
Lemma C4_saveImage_same_millisecond :
  let s := Opened {[ 1000 := ("b.png", "data:image/png;base64,") ]} in
  saveImage 1000 a_png s = (Rejected ConstraintError, s) /\
  ~ (exists r, (saveImage 1000 a_png s).1 = Resolved r) /\
  ~ (exists l r, getAllImages (saveImage 1000 a_png s).2 = Resolved l /\
                 r ∈ l /\ img_name r = "a.png").
Proof.
  cbn. split; [reflexivity|]. split.
  - intros (r & [=]).
  - intros (l & r & [= <-] & Hin & Hn).
    vm_compute in Hin. apply list_elem_of_In in Hin.
    destruct Hin as [<-|[]]. discriminate Hn.
Qed.

(** C4 (amended): on an opened store that holds no record whose id is
    the current time stamp, [saveImage] resolves with the stored record
    [r] (id = the time stamp, name = the file's name, data = the data
    URI of the payload); [getAllImages] then lists [r]; and after
    [deleteImage(r.id)] the listing contains no record with that id --
    it is the listing from before the save. *)
Theorem C4_save_list_delete now file images :
  images !! now = None ->
  exists r s1,
    saveImage now file (Opened images) = (Resolved r, s1) /\
    img_id r = now /\ img_name r = file_name file /\
    img_data r = DataURL.readAsDataURL file /\
    (exists l, getAllImages s1 = Resolved l /\ r ∈ l /\
               exists x, x ∈ l /\ img_name x = file_name file) /\
    exists s2 l',
      deleteImage (img_id r) s1 = (Resolved tt, s2) /\
      getAllImages s2 = Resolved l' /\ (r ∉ l') /\
      (forall x, x ∈ l' -> img_id x <> img_id r) /\
      l' = IDB.getAll images.
Proof.
  intros Hfresh.
  set (r := mkImage now (file_name file) (DataURL.readAsDataURL file)).
  assert (Hadd : IDB.add r images =
                 Some (<[now := (img_name r, img_data r)]> images)).
  { unfold IDB.add. cbn. now rewrite Hfresh. }
  exists r, (Opened (<[now := (img_name r, img_data r)]> images)).
  split; [cbn; fold r; now rewrite Hadd|].
  do 3 (split; [reflexivity|]). split.
  - eexists. split; [reflexivity|].
    assert (r ∈ IDB.getAll (<[now := (img_name r, img_data r)]> images))
      by (apply (getAll_add _ _ _ _ Hadd); now left).
    split; [assumption|]. now exists r.
  - eexists _, _. split; [reflexivity|]. split; [reflexivity|].
    split; [|split].
    + rewrite getAll_delete. now intros [_ []].
    + intros x Hx. now apply getAll_delete in Hx.
    + cbn. unfold IDB.delete. rewrite delete_insert_eq.
      now rewrite delete_id.
Qed.

Lemma C4_save_list_delete_witness :
  exists r s1,
    saveImage 1000 a_png (Opened ∅) = (Resolved r, s1) /\
    img_id r = 1000 /\ img_name r = "a.png" /\
    img_data r = "data:image/png;base64,iVA=" /\
    (exists l, getAllImages s1 = Resolved l /\ r ∈ l /\
               exists x, x ∈ l /\ img_name x = "a.png") /\
    exists s2 l',
      deleteImage (img_id r) s1 = (Resolved tt, s2) /\
      getAllImages s2 = Resolved l' /\ (r ∉ l') /\
      (forall x, x ∈ l' -> img_id x <> img_id r) /\
      l' = IDB.getAll ∅.
Proof.
  apply (C4_save_list_delete 1000 a_png ∅). reflexivity.
Defined.

(** C6: on an opened store [deleteImage(id)] resolves for every id.
    Afterwards no record with that id is stored and every other record
    is stored as before; when no record had that id the store is
    unchanged; deleting again changes nothing. *)
Theorem C6_deleteImage id images :
  exists images',
    deleteImage id (Opened images) = (Resolved tt, Opened images') /\
    images' !! id = None /\
    (forall k, k <> id -> images' !! k = images !! k) /\
    (forall r, r ∈ IDB.getAll images' <->
               r ∈ IDB.getAll images /\ img_id r <> id) /\
    (images !! id = None -> images' = images) /\
    deleteImage id (Opened images') = (Resolved tt, Opened images').
Proof.
  exists (IDB.delete id images). unfold IDB.delete. cbn.
  split; [reflexivity|]. split; [apply lookup_delete_eq|].
  split; [intros k Hk; now apply lookup_delete_ne|].
  split; [intros r; apply getAll_delete|].
  split; [apply delete_id|].
  unfold IDB.delete. now rewrite delete_delete_eq.
Qed.

Lemma C6_deleteImage_witness :
  (exists images',
     deleteImage 7 (Opened ∅) = (Resolved tt, Opened images') /\
     images' = ∅) /\
  (exists images',
     deleteImage 7 (Opened {[ 7 := ("a.png", "data:,") ]})
       = (Resolved tt, Opened images') /\
     images' !! 7 = None).
Proof.
  split.
  - destruct (C6_deleteImage 7 ∅) as (m & H & _ & _ & _ & Hid & _).
    exists m. split; [exact H|]. apply Hid. reflexivity.
  - destruct (C6_deleteImage 7 {[ 7 := ("a.png", "data:,") ]})
      as (m & H & Hnone & _).
    exists m. split; [exact H|exact Hnone].
Defined.

End StorageClaims.

(** ** Properties of [JSON.stringify] and [JSON.parse] *)

Section JSONFacts.

Import JSON.

#[local] Arguments String.append !s1 s2 : simpl nomatch.

Lemma app_cons c s r : String c s +:+ r = String c (s +:+ r).
Proof. reflexivity. Qed.

Lemma app_assoc' s1 s2 s3 : (s1 +:+ s2) +:+ s3 = s1 +:+ (s2 +:+ s3).
Proof. induction s1 as [|c s1 IH]; cbn; [reflexivity|now rewrite IH]. Qed.

Lemma app_empty_r s : s +:+ "" = s.
Proof. induction s as [|c s IH]; cbn; [reflexivity|now rewrite IH]. Qed.

Lemma length_app' s1 s2 :
  String.length (s1 +:+ s2) = (String.length s1 + String.length s2)%nat.
Proof. induction s1 as [|c s1 IH]; cbn; [reflexivity|now rewrite IH]. Qed.

Lemma after_same c r : after c (String c r) = Some r.
Proof. unfold after. now destruct (decide (c = c)). Qed.

Lemma after_other c c' r : c' <> c -> after c (String c' r) = None.
Proof. intros H. unfold after. now destruct (decide (c' = c)). Qed.

(** *** String literals *)

Lemma parse_chars_escape_char c k :
  parse_chars (escape_char c +:+ k) = cons_char c (parse_chars k).
Proof. destruct c as [[] [] [] [] [] [] [] []]; reflexivity. Qed.

Lemma parse_chars_escape s rest :
  parse_chars (escape s +:+ String dquote rest) = Ok (s, rest).
Proof.
  induction s as [|c s IH]; [reflexivity|].
  cbn [escape]. rewrite app_assoc', parse_chars_escape_char, IH.
  reflexivity.
Qed.

Lemma quote_app s rest :
  quote s +:+ rest = String dquote (escape s +:+ String dquote rest).
Proof. unfold quote. now rewrite app_cons, app_assoc'. Qed.

(** *** Numbers *)

Lemma span_digits_delimited rest :
  delimited rest = true -> span_digits rest = ("", rest).
Proof.
  destruct rest as [|c r]; [reflexivity|]. cbn.
  destruct c as [[] [] [] [] [] [] [] []]; cbn; try discriminate; reflexivity.
Qed.

Lemma starts_fraction_delimited rest :
  delimited rest = true -> starts_fraction_or_exponent rest = false.
Proof.
  destruct rest as [|c r]; [reflexivity|]. cbn.
  destruct c as [[] [] [] [] [] [] [] []]; cbn; try discriminate; reflexivity.
Qed.

Lemma span_digits_uint d rest :
  delimited rest = true ->
  span_digits (NilEmpty.string_of_uint d +:+ rest)
    = (NilEmpty.string_of_uint d, rest).
Proof.
  intros H. induction d; cbn [NilEmpty.string_of_uint];
    [now apply span_digits_delimited|..];
    rewrite app_cons; cbn [span_digits]; rewrite IHd; reflexivity.
Qed.

Lemma parse_natural_uint d rest :
  d <> Decimal.Nil -> (forall d', d' <> Decimal.Nil -> d <> Decimal.D0 d') ->
  delimited rest = true ->
  parse_natural (NilEmpty.string_of_uint d +:+ rest) = Ok (N.of_uint d, rest).
Proof.
  intros Hn Hz Hr. unfold parse_natural.
  rewrite span_digits_uint by assumption.
  rewrite (starts_fraction_delimited _ Hr), NilEmpty.usu.
  destruct d; try congruence; try reflexivity.
  destruct d; try reflexivity; exfalso; (eapply Hz; [|reflexivity]); discriminate.
Qed.

Lemma parse_natural_N n rest :
  delimited rest = true ->
  parse_natural (NilEmpty.string_of_uint (N.to_uint n) +:+ rest) = Ok (n, rest).
Proof.
  intros Hr. rewrite parse_natural_uint; [| | |assumption].
  - now rewrite DecimalN.Unsigned.of_to.
  - destruct n; [discriminate|apply DecimalPos.Unsigned.to_uint_nonnil].
  - intros d' Hd'. destruct n as [|p]; cbn.
    + intros [= <-]. congruence.
    + apply to_uint_head.
Qed.

Lemma Number_toString_N n :
  JS.Number_toString (Z.of_N n) = NilEmpty.string_of_uint (N.to_uint n).
Proof. destruct n; [reflexivity|apply Number_toString_pos]. Qed.

Lemma Number_toString_neg p :
  JS.Number_toString (Z.neg p)
    = String "-" (NilEmpty.string_of_uint (Pos.to_uint p)).
Proof.
  unfold JS.Number_toString. cbn.
  pose proof (DecimalPos.Unsigned.to_uint_nonnil p).
  now destruct (Pos.to_uint p).
Qed.

(** A printed natural number starts with a digit. *)
Lemma string_of_uint_digit d :
  d <> Decimal.Nil ->
  exists c r, NilEmpty.string_of_uint d = String c r /\ is_digit c = true.
Proof. destruct d; try congruence; intros _; eexists _, _; now cbn. Qed.

Lemma parse_number_digit c r :
  is_digit c = true ->
  parse_number (String c r)
    = bind (parse_natural (String c r)) (fun '(n, rest) => Ok (Z.of_N n, rest)).
Proof.
  destruct c as [[] [] [] [] [] [] [] []]; cbn; try discriminate; reflexivity.
Qed.

Lemma parse_number_N n rest :
  delimited rest = true ->
  parse_number (JS.Number_toString (Z.of_N n) +:+ rest) = Ok (Z.of_N n, rest).
Proof.
  intros Hr. rewrite Number_toString_N.
  destruct (string_of_uint_digit (N.to_uint n)) as (c & r & E & Hc).
  { destruct n; [discriminate|apply DecimalPos.Unsigned.to_uint_nonnil]. }
  pose proof (parse_natural_N n rest Hr) as Hp.
  rewrite E in *. rewrite app_cons in *.
  rewrite (parse_number_digit _ _ Hc), Hp. reflexivity.
Qed.

Lemma parse_number_toString n rest :
  delimited rest = true ->
  parse_number (JS.Number_toString n +:+ rest) = Ok (n, rest).
Proof.
  intros Hr. destruct n as [|p|p].
  - apply (parse_number_N 0 rest Hr).
  - apply (parse_number_N (N.pos p) rest Hr).
  - rewrite Number_toString_neg, app_cons. unfold parse_number.
    rewrite after_same.
    change (Pos.to_uint p) with (N.to_uint (N.pos p)).
    rewrite (parse_natural_N _ _ Hr). reflexivity.
Qed.

(** *** Values *)

Lemma stringify_arr_app items rest :
  stringify (JArr items) +:+ rest
    = String "[" (join (map stringify items) +:+ String "]" rest).
Proof. cbn [stringify]. rewrite !app_assoc'. reflexivity. Qed.

Lemma stringify_obj_app fields rest :
  stringify (JObj fields) +:+ rest
    = String "{" (join (map member_text fields) +:+ String "}" rest).
Proof. cbn [stringify]. rewrite !app_assoc'. reflexivity. Qed.

Lemma Number_toString_start n :
  exists c k, JS.Number_toString n = String c k /\
              is_digit c || bool_decide (c = "-"%char) = true.
Proof.
  destruct n as [|p|p].
  - now exists "0"%char, "".
  - rewrite Number_toString_pos.
    destruct (string_of_uint_digit (Pos.to_uint p)) as (c & k & E & Hc);
      [apply DecimalPos.Unsigned.to_uint_nonnil|].
    exists c, k. now rewrite Hc.
  - rewrite Number_toString_neg. now eexists _, _.
Qed.

Lemma stringify_start v :
  exists c k, stringify v = String c k /\ value_start c = true.
Proof.
  destruct v as [|[]|n|s|items|fields]; try (now eexists _, _).
  destruct (Number_toString_start n) as (c & k & E & Hc).
  exists c, k. split; [exact E|]. unfold value_start. now rewrite Hc.
Qed.

Lemma join_start (items : list JSValue) :
  items <> [] ->
  exists c k, join (map stringify items) = String c k /\ value_start c = true.
Proof.
  destruct items as [|v vs]; [congruence|]. intros _.
  destruct (stringify_start v) as (c & k & E & Hc).
  destruct vs as [|w ws]; cbn [map join]; rewrite E; now eexists _, _.
Qed.

(** How [parse_value] dispatches on the first character. *)
Lemma parse_value_number fuel c r :
  is_digit c || bool_decide (c = "-"%char) = true ->
  parse_value (S fuel) (String c r)
    = bind (parse_number (String c r)) (fun '(n, rest) => Ok (JNum n, rest)).
Proof.
  destruct c as [[] [] [] [] [] [] [] []]; cbn; try discriminate; reflexivity.
Qed.

Lemma parse_value_string fuel k :
  parse_value (S fuel) (String dquote k)
    = bind (parse_chars k) (fun '(str, rest) => Ok (JStr str, rest)).
Proof. reflexivity. Qed.

Lemma parse_value_array fuel c k :
  value_start c = true ->
  parse_value (S fuel) (String "[" (String c k))
    = bind (parse_elements fuel (String c k))
           (fun '(items, rest) => Ok (JArr items, rest)).
Proof.
  destruct c as [[] [] [] [] [] [] [] []]; cbn; try discriminate; reflexivity.
Qed.

Lemma parse_value_object fuel k :
  parse_value (S fuel) (String "{" (String dquote k))
    = bind (parse_members fuel (String dquote k))
           (fun '(members, rest) => Ok (JObj (make_object members), rest)).
Proof. reflexivity. Qed.

Lemma parse_elements_S fuel s :
  parse_elements (S fuel) s
    = bind (parse_value fuel s) (fun '(v, r) =>
        match after "," (skip_ws r), after "]" (skip_ws r) with
        | Some r', _ =>
            bind (parse_elements fuel r')
                 (fun '(vs, rest) => Ok (v :: vs, rest))
        | None, Some rest => Ok ([v], rest)
        | None, None => SyntaxError
        end).
Proof. reflexivity. Qed.

Lemma parse_members_S fuel k :
  parse_members (S fuel) (String dquote k)
    = bind (parse_chars k) (fun '(key, r1) =>
        match after ":" (skip_ws r1) with
        | None => SyntaxError
        | Some r2 =>
            bind (parse_value fuel r2) (fun '(v, r3) =>
              match after "," (skip_ws r3), after "}" (skip_ws r3) with
              | Some r4, _ =>
                  bind (parse_members fuel r4)
                       (fun '(ms, rest) => key_ok key ((key, v) :: ms, rest))
              | None, Some rest => key_ok key ([(key, v)], rest)
              | None, None => SyntaxError
              end)
        end).
Proof. reflexivity. Qed.

(** What follows a printed value is not white space. *)
Lemma skip_ws_comma r : skip_ws (String "," r) = String "," r.
Proof. reflexivity. Qed.

Lemma skip_ws_bracket r : skip_ws (String "]" r) = String "]" r.
Proof. reflexivity. Qed.

Lemma skip_ws_brace r : skip_ws (String "}" r) = String "}" r.
Proof. reflexivity. Qed.

Lemma skip_ws_colon r : skip_ws (String ":" r) = String ":" r.
Proof. reflexivity. Qed.

Lemma sum_cons x l : list_sum (x :: l) = (x + list_sum l)%nat.
Proof. reflexivity. Qed.

Lemma parse_elements_join items :
  items <> [] -> Forall reads_back items -> Forall well_formed items ->
  forall fuel rest,
    (list_sum (map (fun x => S (size x)) items) <= fuel)%nat ->
    parse_elements fuel (join (map stringify items) +:+ String "]" rest)
      = Ok (items, rest).
Proof.
  induction items as [|v vs IH]; [congruence|].
  intros _ HP Hwf fuel rest Hf.
  apply Forall_cons in HP as [Hv HP]. apply Forall_cons in Hwf as [Wv Hwf].
  rewrite map_cons, sum_cons in Hf. destruct fuel as [|f]; [lia|].
  rewrite parse_elements_S. destruct vs as [|w ws].
  - cbn [map join]. rewrite (Hv Wv) by (reflexivity || lia). reflexivity.
  - change (join (map stringify (v :: w :: ws)))
      with (stringify v +:+ "," +:+ join (map stringify (w :: ws))).
    rewrite !app_assoc'.
    rewrite (Hv Wv) by (reflexivity || lia).
    cbn [bind String.append]. rewrite skip_ws_comma, after_same.
    rewrite IH; [reflexivity|congruence|assumption|assumption|lia].
Qed.

Lemma parse_members_join fields :
  fields <> [] ->
  Forall (fun kv => reads_back (snd kv)) fields ->
  Forall (fun kv => is_integer_index (fst kv) = false) fields ->
  Forall (fun kv => well_formed (snd kv)) fields ->
  forall fuel rest,
    (list_sum (map (fun kv => S (size (snd kv))) fields) <= fuel)%nat ->
    parse_members fuel (join (map member_text fields) +:+ String "}" rest)
      = Ok (fields, rest).
Proof.
  induction fields as [|[k v] vs IH]; [congruence|].
  intros _ HP Hkey Hwf fuel rest Hf.
  apply Forall_cons in HP as [Hv HP]. apply Forall_cons in Hwf as [Wv Hwf].
  apply Forall_cons in Hkey as [Hk Hkey].
  rewrite map_cons, sum_cons in Hf. cbn [fst snd] in Hf, Hv, Wv, Hk.
  destruct fuel as [|f]; [lia|].
  destruct vs as [|w ws].
  - cbn [map join]. unfold member_text at 1. cbn [fst snd].
    rewrite !app_assoc', quote_app, parse_members_S, parse_chars_escape.
    cbn [bind String.append]. rewrite skip_ws_colon, after_same.
    rewrite (Hv Wv) by (reflexivity || lia).
    cbn [bind]. rewrite skip_ws_brace, after_same, after_other by discriminate.
    unfold key_ok. now rewrite Hk.
  - change (join (map member_text ((k, v) :: w :: ws)))
      with (member_text (k, v) +:+ "," +:+ join (map member_text (w :: ws))).
    unfold member_text at 1. cbn [fst snd].
    rewrite !app_assoc', quote_app, parse_members_S, parse_chars_escape.
    cbn [bind String.append]. rewrite skip_ws_colon, after_same.
    rewrite (Hv Wv) by (reflexivity || lia).
    cbn [bind String.append]. rewrite skip_ws_comma, after_same.
    rewrite IH; [|congruence|assumption|assumption|assumption|lia].
    cbn [bind]. unfold key_ok. now rewrite Hk.
Qed.

(** Building the object from members with distinct keys keeps them. *)
Lemma obj_set_fresh k v acc :
  k ∉ map fst acc -> obj_set k v acc = (acc ++ [(k, v)])%list.
Proof.
  induction acc as [|[k' v'] acc IH]; [reflexivity|].
  cbn [map fst]. intros Hk. apply not_elem_of_cons in Hk as [Hne Hk].
  cbn [obj_set]. destruct (decide (k' = k)); [congruence|].
  now rewrite IH.
Qed.

Lemma make_object_distinct members :
  NoDup (map fst members) -> make_object members = members.
Proof.
  unfold make_object.
  enough (H : forall acc,
             NoDup (map fst (acc ++ members)%list) ->
             fold_left (fun acc kv => obj_set (fst kv) (snd kv) acc) members acc
               = (acc ++ members)%list) by apply (H []).
  induction members as [|[k v] ms IH]; intros acc Hnd; cbn [fold_left].
  - now rewrite app_nil_r.
  - cbn [fst snd]. rewrite obj_set_fresh.
    + rewrite IH; rewrite <- app_assoc; [reflexivity|exact Hnd].
    + rewrite map_app in Hnd. apply NoDup_app in Hnd as (_ & Hd & _).
      intros Hin. apply (Hd k Hin). cbn. left.
Qed.

Lemma parse_value_stringify v : reads_back v.
Proof.
  induction v as [|b|n|s|items IH|fields IH] using JSValue_ind;
    intros Hwf fuel rest Hf Hr;
    (destruct fuel as [|f]; [cbn in Hf; lia|]).
  - reflexivity.
  - destruct b; reflexivity.
  - cbn [stringify].
    destruct (Number_toString_start n) as (c & k & E & Hc).
    pose proof (parse_number_toString n rest Hr) as Hp.
    rewrite E in *. rewrite app_cons in *.
    rewrite (parse_value_number _ _ _ Hc), Hp. reflexivity.
  - cbn [stringify]. rewrite quote_app, parse_value_string.
    rewrite parse_chars_escape. reflexivity.
  - destruct (decide (items = [])) as [->|Hne]; [reflexivity|].
    rewrite stringify_arr_app.
    destruct (join_start items Hne) as (c & k & E & Hc).
    inversion Hwf as [| | | |? Hall|]; subst.
    pose proof (parse_elements_join items Hne IH Hall f rest) as Hp.
    rewrite E in *. rewrite app_cons in *.
    rewrite (parse_value_array _ _ _ Hc), Hp; [reflexivity|].
    cbn [size] in Hf. lia.
  - destruct (decide (fields = [])) as [->|Hne]; [reflexivity|].
    rewrite stringify_obj_app.
    inversion Hwf as [| | | | |? Hnd Hkey Hall]; subst.
    pose proof (parse_members_join fields Hne IH Hkey Hall f rest) as Hp.
    destruct fields as [|[k v] fs]; [congruence|].
    assert (E : exists t, join (map member_text ((k, v) :: fs))
                          = String dquote t).
    { destruct fs; cbn [map join]; unfold member_text at 1;
        unfold quote; eexists; reflexivity. }
    destruct E as (t & E). rewrite E in *. rewrite app_cons in *.
    rewrite parse_value_object, Hp; [|cbn [size] in Hf; lia].
    cbn [bind]. now rewrite make_object_distinct.
Qed.

(** The fuel [parse] starts with covers every printed value. *)
Lemma join_length_bound {A} (f : A -> string) (g : A -> nat) l :
  Forall (fun x => (g x <= String.length (f x))%nat) l ->
  (list_sum (map (fun x => S (g x)) l)
     <= String.length (join (map f l)) + 1)%nat.
Proof.
  induction 1 as [|x l Hx Hl IH]; [cbn; lia|].
  rewrite map_cons, sum_cons. destruct l as [|y l].
  - cbn [map join list_sum fold_right]. lia.
  - change (join (map f (x :: y :: l)))
      with (f x +:+ "," +:+ join (map f (y :: l))).
    rewrite !length_app'. cbn [String.length]. lia.
Qed.

Lemma size_le_length v : (size v <= String.length (stringify v))%nat.
Proof.
  induction v as [|b|n|s|items IH|fields IH] using JSValue_ind.
  - cbn. lia.
  - destruct b; cbn; lia.
  - cbn [size stringify].
    destruct (Number_toString_start n) as (c & k & -> & _). cbn. lia.
  - cbn. lia.
  - rewrite <- (app_empty_r (stringify (JArr items))), stringify_arr_app.
    cbn [size String.length]. rewrite length_app'. cbn [String.length].
    pose proof (join_length_bound stringify size items IH). lia.
  - rewrite <- (app_empty_r (stringify (JObj fields))), stringify_obj_app.
    cbn [size String.length]. rewrite length_app'. cbn [String.length].
    pose proof (join_length_bound member_text (fun kv => size (snd kv)) fields)
      as Hb.
    enough (Forall (fun kv => (size (snd kv)
                               <= String.length (member_text kv))%nat) fields)
      by (specialize (Hb ltac:(assumption)); lia).
    eapply Forall_impl; [exact IH|]. intros [k v] Hkv. cbn [snd] in *.
    unfold member_text. rewrite !length_app'. cbn [snd]. lia.
Qed.

(** [JSON.parse(JSON.stringify(v))] is [v]. *)
Theorem parse_stringify v :
  well_formed v -> parse (stringify v) = Ok v.
Proof.
  intros Hwf. unfold parse.
  pose proof (parse_value_stringify v Hwf
                (2 * String.length (stringify v) + 1)%nat "") as H.
  rewrite app_empty_r in H. rewrite H; [reflexivity| |reflexivity].
  pose proof (size_le_length v). lia.
Qed.

(** *** The recursion never runs out of fuel *)

Lemma skip_ws_length s : (String.length (skip_ws s) <= String.length s)%nat.
Proof.
  induction s as [|c s IH]; cbn; [lia|]. destruct (is_ws c); cbn; lia.
Qed.

Lemma after_length c s r :
  after c s = Some r -> String.length s = S (String.length r).
Proof.
  destruct s as [|c' s]; cbn; [discriminate|].
  destruct (decide (c' = c)); [now intros [= ->]|discriminate].
Qed.

Lemma bind_Ok {A B} (r : Result A) (k : A -> Result B) b :
  bind r k = Ok b -> exists a, r = Ok a /\ k a = Ok b.
Proof. destruct r; cbn; try discriminate. eauto. Qed.

Lemma bind_OutOfFuel {A B} (r : Result A) (k : A -> Result B) :
  r <> OutOfFuel -> (forall a, r = Ok a -> k a <> OutOfFuel) ->
  bind r k <> OutOfFuel.
Proof. destruct r; cbn; try discriminate; auto. Qed.

Lemma cons_char_Ok c res k r :
  cons_char c res = Ok (k, r) -> exists k', res = Ok (k', r).
Proof.
  unfold cons_char. intros ([k' r'] & -> & [= _ <-])%bind_Ok. eauto.
Qed.

Lemma cons_char_OutOfFuel c res :
  res <> OutOfFuel -> cons_char c res <> OutOfFuel.
Proof. destruct res as [[]| | |]; cbn; congruence. Qed.

Lemma parse_chars_spec n : forall s,
  (String.length s <= n)%nat ->
  parse_chars s <> OutOfFuel /\
  forall k r, parse_chars s = Ok (k, r) ->
              (String.length r < String.length s)%nat.
Proof.
  induction n as [|n IH]; intros [|c s] Hn; cbn [String.length] in Hn;
    try lia; try (split; [discriminate|intros; discriminate]).
  assert (Hs : forall c' t, (String.length t <= String.length s)%nat ->
     cons_char c' (parse_chars t) <> OutOfFuel /\
     forall k r, cons_char c' (parse_chars t) = Ok (k, r) ->
                 (String.length r < String.length (String c s))%nat).
  { intros c' t Ht. destruct (IH t) as [H1 H2]; [lia|]. split.
    - now apply cons_char_OutOfFuel.
    - intros k r (k' & Hk)%cons_char_Ok. apply H2 in Hk. cbn. lia. }
  cbn [parse_chars].
  destruct (decide (c = dquote)).
  { split; [discriminate|]. intros k r [= _ <-]. cbn. lia. }
  destruct (decide (c = backslash)).
  2:{ destruct (N_of_ascii c <? 32)%N; [split; [discriminate|intros; discriminate]|].
      now apply Hs. }
  destruct s as [|esc s']; [split; [discriminate|intros; discriminate]|].
  repeat (destruct (decide _); [apply Hs; cbn; lia|]).
  destruct (decide _); [|split; [discriminate|intros; discriminate]].
  destruct s' as [|h1 [|h2 [|h3 [|h4 t]]]];
    try (split; [discriminate|intros; discriminate]).
  destruct (hex4 h1 h2 h3 h4); [|split; [discriminate|intros; discriminate]].
  destruct (_ <? 256)%N; [|split; [discriminate|intros; discriminate]].
  apply Hs. cbn. lia.
Qed.

Lemma parse_chars_length s k r :
  parse_chars s = Ok (k, r) -> (String.length r < String.length s)%nat.
Proof. apply (parse_chars_spec (String.length s) s). lia. Qed.

Lemma parse_chars_fuel s : parse_chars s <> OutOfFuel.
Proof. apply (parse_chars_spec (String.length s) s). lia. Qed.

Lemma span_digits_length s :
  String.length s
    = (String.length (span_digits s).1 + String.length (span_digits s).2)%nat.
Proof.
  induction s as [|c s IH]; [reflexivity|]. cbn [span_digits].
  destruct (is_digit c); [|reflexivity].
  destruct (span_digits s) as [ds rest]. cbn in *. lia.
Qed.

Lemma parse_natural_spec s :
  parse_natural s <> OutOfFuel /\
  forall n r, parse_natural s = Ok (n, r) ->
              (String.length r < String.length s)%nat.
Proof.
  unfold parse_natural. pose proof (span_digits_length s) as Hl.
  destruct (span_digits s) as [ds rest]. cbn [fst snd] in Hl.
  destruct (bool_decide (ds = "")) eqn:E; cbn [orb];
    [split; [discriminate|intros; discriminate]|].
  apply bool_decide_eq_false in E.
  destruct (leading_zero ds); [split; [discriminate|intros; discriminate]|].
  destruct (starts_fraction_or_exponent rest);
    [split; [discriminate|intros; discriminate]|].
  destruct (NilEmpty.uint_of_string ds);
    [|split; [discriminate|intros; discriminate]].
  split; [discriminate|]. intros n r [= _ <-].
  destruct ds; [congruence|]. cbn in Hl. lia.
Qed.

Lemma parse_number_spec s :
  parse_number s <> OutOfFuel /\
  forall n r, parse_number s = Ok (n, r) ->
              (String.length r < String.length s)%nat.
Proof.
  unfold parse_number. destruct (after "-" s) as [t|] eqn:E.
  - apply after_length in E. destruct (parse_natural_spec t) as [H1 H2].
    split.
    + apply bind_OutOfFuel; [exact H1|]. now intros [n r] _.
    + intros n r ([n' r'] & Hp & [= _ <-])%bind_Ok. apply H2 in Hp. lia.
  - destruct (parse_natural_spec s) as [H1 H2]. split.
    + apply bind_OutOfFuel; [exact H1|]. now intros [n r] _.
    + intros n r ([n' r'] & Hp & [= _ <-])%bind_Ok. now apply H2 in Hp.
Qed.

Lemma strip_prefix_length p : forall s r,
  strip_prefix p s = Some r -> (String.length r <= String.length s)%nat.
Proof.
  induction p as [|a p IH]; intros [|b s] r; cbn; try discriminate.
  - now intros [= <-].
  - now intros [= <-].
  - destruct (decide (a = b)); [|discriminate].
    intros H%IH. lia.
Qed.

Lemma literal_spec w v s :
  literal w v s <> OutOfFuel /\
  forall v' r, literal w v s = Ok (v', r) ->
               (String.length r <= String.length s)%nat.
Proof.
  unfold literal. destruct (strip_prefix w s) as [t|] eqn:E.
  - split; [discriminate|]. intros v' r [= _ <-].
    now apply strip_prefix_length in E.
  - split; [discriminate|intros; discriminate].
Qed.

Lemma key_ok_Ok {A} k (a b : A) : key_ok k a = Ok b -> a = b.
Proof. unfold key_ok. destruct (is_integer_index k); congruence. Qed.

Lemma key_ok_fuel {A} k (a : A) : key_ok k a <> OutOfFuel.
Proof. unfold key_ok. now destruct (is_integer_index k). Qed.

(** Every successful parse consumes input. *)
Lemma parse_consumes fuel :
  (forall s v r, parse_value fuel s = Ok (v, r) ->
                 (String.length r < String.length s)%nat) /\
  (forall s vs r, parse_elements fuel s = Ok (vs, r) ->
                  (String.length r < String.length s)%nat) /\
  (forall s ms r, parse_members fuel s = Ok (ms, r) ->
                  (String.length r < String.length s)%nat).
Proof.
  induction fuel as [|f (IHv & IHe & IHm)];
    [repeat split; intros; discriminate|].
  split; [|split].
  - intros s v r. cbn [parse_value].
    pose proof (skip_ws_length s) as Hs.
    destruct (skip_ws s) as [|c t]; [discriminate|]. cbn [String.length] in Hs.
    repeat (destruct (decide _);
      [intros H; apply literal_spec in H; lia|]).
    destruct (decide _).
    { intros ([k r'] & Hp%parse_chars_length & [= _ <-])%bind_Ok. lia. }
    pose proof (skip_ws_length t) as Ht.
    destruct (decide _).
    { destruct (after "]" (skip_ws t)) as [rest|] eqn:E.
      - apply after_length in E. intros [= _ <-]. lia.
      - intros ([vs r'] & Hp%IHe & [= _ <-])%bind_Ok. lia. }
    destruct (decide _).
    { destruct (after "}" (skip_ws t)) as [rest|] eqn:E.
      - apply after_length in E. intros [= _ <-]. lia.
      - intros ([vs r'] & Hp%IHm & [= _ <-])%bind_Ok. lia. }
    destruct (_ || _); [|discriminate].
    intros ([z r'] & Hp & [= _ <-])%bind_Ok.
    apply parse_number_spec in Hp. cbn [String.length] in Hp. lia.
  - intros s vs r. cbn [parse_elements].
    intros ([v r1] & Hv%IHv & H)%bind_Ok.
    pose proof (skip_ws_length r1) as Hs.
    destruct (after "," (skip_ws r1)) as [r2|] eqn:E1.
    + apply after_length in E1.
      apply bind_Ok in H as ([vs' r'] & Hp%IHe & [= _ <-]). lia.
    + destruct (after "]" (skip_ws r1)) as [r2|] eqn:E2; [|discriminate].
      apply after_length in E2. injection H as _ <-. lia.
  - intros s ms r. cbn [parse_members].
    pose proof (skip_ws_length s) as Hs.
    destruct (after dquote (skip_ws s)) as [t|] eqn:E0; [|discriminate].
    apply after_length in E0.
    intros ([k r1] & Hk%parse_chars_length & H)%bind_Ok.
    pose proof (skip_ws_length r1) as Hs1.
    destruct (after ":" (skip_ws r1)) as [r2|] eqn:E1; [|discriminate].
    apply after_length in E1.
    apply bind_Ok in H as ([v r3] & Hv%IHv & H).
    pose proof (skip_ws_length r3) as Hs3.
    destruct (after "," (skip_ws r3)) as [r4|] eqn:E3.
    + apply after_length in E3.
      apply bind_Ok in H as ([ms' r'] & Hp%IHm & [= _ <-]%key_ok_Ok). lia.
    + destruct (after "}" (skip_ws r3)) as [r4|] eqn:E4; [|discriminate].
      apply after_length in E4. apply key_ok_Ok in H. injection H as _ <-. lia.
Qed.

(** With fuel for twice the length of the text the recursion never runs
    out. *)
Lemma parse_fuel_enough fuel :
  (forall s, (2 * String.length s + 1 <= fuel)%nat ->
             parse_value fuel s <> OutOfFuel) /\
  (forall s, (2 * String.length s + 2 <= fuel)%nat ->
             parse_elements fuel s <> OutOfFuel) /\
  (forall s, (2 * String.length s + 2 <= fuel)%nat ->
             parse_members fuel s <> OutOfFuel).
Proof.
  induction fuel as [|f (IHv & IHe & IHm)]; [repeat split; intros; lia|].
  destruct (parse_consumes f) as (Cv & Ce & Cm).
  split; [|split].
  - intros s Hf. cbn [parse_value].
    pose proof (skip_ws_length s) as Hs.
    destruct (skip_ws s) as [|c t]; [discriminate|]. cbn [String.length] in Hs.
    repeat (destruct (decide _); [apply literal_spec|]).
    destruct (decide _).
    { apply bind_OutOfFuel; [apply parse_chars_fuel|]. now intros [k r] _. }
    pose proof (skip_ws_length t) as Ht.
    destruct (decide _).
    { destruct (after "]" (skip_ws t)); [discriminate|].
      apply bind_OutOfFuel; [apply IHe; lia|]. now intros [k r] _. }
    destruct (decide _).
    { destruct (after "}" (skip_ws t)); [discriminate|].
      apply bind_OutOfFuel; [apply IHm; lia|]. now intros [k r] _. }
    destruct (_ || _); [|discriminate].
    apply bind_OutOfFuel; [apply parse_number_spec|]. now intros [k r] _.
  - intros s Hf. cbn [parse_elements].
    apply bind_OutOfFuel; [apply IHv; lia|].
    intros [v r1] Hv%Cv.
    pose proof (skip_ws_length r1) as Hs.
    destruct (after "," (skip_ws r1)) as [r2|] eqn:E1.
    + apply after_length in E1.
      apply bind_OutOfFuel; [apply IHe; lia|]. now intros [k r] _.
    + now destruct (after "]" (skip_ws r1)).
  - intros s Hf. cbn [parse_members].
    pose proof (skip_ws_length s) as Hs.
    destruct (after dquote (skip_ws s)) as [t|] eqn:E0; [|discriminate].
    apply after_length in E0.
    apply bind_OutOfFuel; [apply parse_chars_fuel|].
    intros [k r1] Hk%parse_chars_length.
    pose proof (skip_ws_length r1) as Hs1.
    destruct (after ":" (skip_ws r1)) as [r2|] eqn:E1; [|discriminate].
    apply after_length in E1.
    apply bind_OutOfFuel; [apply IHv; lia|].
    intros [v r3] Hv%Cv.
    pose proof (skip_ws_length r3) as Hs3.
    destruct (after "," (skip_ws r3)) as [r4|] eqn:E3.
    + apply after_length in E3.
      apply bind_OutOfFuel; [apply IHm; lia|].
      intros [ms r] _. apply key_ok_fuel.
    + destruct (after "}" (skip_ws r3)); [apply key_ok_fuel|discriminate].
Qed.

(** [JSON.parse] always gives a value, throws, or reports a text outside
    the fragment. *)
Theorem parse_total text : parse text <> OutOfFuel.
Proof.
  unfold parse. apply bind_OutOfFuel.
  - apply parse_fuel_enough. lia.
  - intros [v r] _. now destruct (skip_ws r).
Qed.

End JSONFacts.

(** ** Properties of the to-do list *)

Section TodoFacts.

Import Todo.

Lemma trimStart_all_white s :
  JS.all_chars JS.is_white_space s = true -> JS.trimStart s = "".
Proof.
  induction s as [|c r IH]; cbn; [reflexivity|].
  intros [Hc Hr]%andb_prop. rewrite Hc. now apply IH.
Qed.

Lemma trimStart_head s c r :
  JS.trimStart s = String c r -> JS.is_white_space c = false.
Proof.
  induction s as [|a s IH]; cbn; [discriminate|].
  destruct (JS.is_white_space a) eqn:Ha; [exact IH|].
  now intros [= <- _].
Qed.

Lemma trimStart_empty s :
  JS.trimStart s = "" -> JS.all_chars JS.is_white_space s = true.
Proof.
  induction s as [|a s IH]; cbn; [reflexivity|].
  destruct (JS.is_white_space a); [exact IH|discriminate].
Qed.

Lemma trimEnd_head c r :
  JS.is_white_space c = false -> JS.trimEnd (String c r) <> "".
Proof.
  intros Hc. cbn. destruct (JS.trimEnd r); [now rewrite Hc|discriminate].
Qed.

(** [trim] gives the empty string exactly on strings of white space. *)
Lemma trim_empty_iff s :
  JS.trim s = "" <-> JS.all_chars JS.is_white_space s = true.
Proof.
  unfold JS.trim. split.
  - intros H. apply trimStart_empty.
    destruct (JS.trimStart s) as [|c r] eqn:E; [reflexivity|].
    apply trimStart_head in E. now apply (trimEnd_head c r) in E.
  - intros H. now rewrite trimStart_all_white.
Qed.

Lemma render_save_in_sync m : in_sync (render (save m)).
Proof.
  split; [|reflexivity]. cbn. unfold getItem, setItem.
  apply lookup_insert_eq.
Qed.

Lemma addTask_in_sync now m : in_sync m -> in_sync (addTask now m).
Proof.
  intros H. unfold addTask. destruct (decide _); [exact H|].
  split; [|reflexivity]. cbn. unfold getItem, setItem.
  apply lookup_insert_eq.
Qed.

Lemma toggleTask_in_sync id m : in_sync m -> in_sync (toggleTask id m).
Proof.
  intros H. unfold toggleTask.
  destruct (list_find _ _) as [[i t]|]; [apply render_save_in_sync|exact H].
Qed.

Lemma deleteTask_in_sync id m : in_sync (deleteTask id m).
Proof. apply render_save_in_sync. Qed.

Lemma toggleTask_absent id m :
  (forall t, t ∈ tasks m -> task_id t <> id) -> toggleTask id m = m.
Proof.
  intros H. unfold toggleTask.
  destruct (list_find _ _) as [[i t]|] eqn:E; [|reflexivity].
  apply list_find_Some in E as (Hi & Ht & _).
  apply list_elem_of_lookup_2 in Hi. now apply H in Hi.
Qed.

Lemma filter_keep_all {A} (P : A -> Prop) `{forall x, Decision (P x)} l :
  Forall P l -> filter P l = l.
Proof.
  induction 1 as [|x l Hx Hl IH]; [reflexivity|].
  rewrite filter_cons_True by assumption. now rewrite IH.
Qed.

(** With distinct ids, filtering out an id removes one position. *)
Lemma filter_id_delete id : forall (l : list Task) i t,
  NoDup (task_id <$> l) -> l !! i = Some t -> task_id t = id ->
  filter (fun u => task_id u <> id) l = delete i l.
Proof.
  induction l as [|a l IH]; intros i t Hnd Hi Ht.
  - now rewrite lookup_nil in Hi.
  - rewrite fmap_cons in Hnd. apply NoDup_cons in Hnd as [Ha Hnd].
    destruct i as [|i].
    + cbn in Hi. injection Hi as ->.
      rewrite filter_cons_False by (intros H'; now apply H').
      cbn. apply filter_keep_all, Forall_forall. intros u Hu Hid.
      apply Ha. apply list_elem_of_fmap. exists u.
      split; [congruence|assumption].
    + cbn in Hi. rewrite filter_cons_True.
      * cbn. f_equal. now apply (IH i t).
      * intros E. apply Ha. apply list_elem_of_fmap. exists t.
        split; [congruence|]. eapply list_elem_of_lookup_2; eauto.
Qed.

Lemma js_of_tasks_well_formed l : JSON.well_formed (js_of_tasks l).
Proof.
  constructor. apply Forall_forall. intros v Hv.
  apply list_elem_of_In, in_map_iff in Hv as (t & <- & _).
  constructor.
  - cbn. repeat (apply NoDup_cons_2;
      [rewrite list_elem_of_In; cbn; intuition discriminate|]).
    apply NoDup_nil_2.
  - repeat constructor.
  - repeat constructor.
Qed.

Lemma task_of_js_of_task t : task_of_js (js_of_task t) = Some t.
Proof.
  unfold task_of_js, js_of_task.
  destruct (decide _) as [_|Hn]; [now destruct t|].
  exfalso. apply Hn. auto.
Qed.

(** The task array is recovered from its JavaScript value. *)
Lemma tasks_of_js_of_tasks l : tasks_of_js (js_of_tasks l) = Some l.
Proof.
  unfold tasks_of_js, js_of_tasks.
  induction l as [|t l IH]; [reflexivity|].
  cbn [map mapM]. rewrite task_of_js_of_task. cbn. rewrite IH. reflexivity.
Qed.

Lemma js_of_tasks_inj l1 l2 : js_of_tasks l1 = js_of_tasks l2 -> l1 = l2.
Proof.
  intros H. apply (f_equal tasks_of_js) in H.
  rewrite !tasks_of_js_of_tasks in H. congruence.
Qed.

(** With distinct ids the first task with the id of the [j]-th task is
    the [j]-th task. *)
Lemma list_find_distinct (l : list Task) j t :
  NoDup (task_id <$> l) -> l !! j = Some t ->
  list_find (fun u => task_id u = task_id t) l = Some (j, t).
Proof.
  intros Hnd Hj. apply list_find_Some. split; [exact Hj|]. split; [reflexivity|].
  intros i y Hi Hlt Hid.
  assert (i = j); [|lia].
  apply (NoDup_lookup _ i j (task_id t) Hnd); rewrite list_lookup_fmap.
  - now rewrite Hi, <- Hid.
  - now rewrite Hj.
Qed.

End TodoFacts.

Section TodoClaims.

Import Todo.

(** C7 (as stated, refuted): the id of a task is the time stamp of its
    creation, so two tasks added in the same millisecond carry the same
    id.  On the list reached from an empty page by adding ["b"] and
    then ["a"] at time 7, toggling the id of the second task flips the
    first task and leaves the second as it was, and deleting that id
    removes both tasks, not the one. *)
Lemma C7_same_millisecond_tasks :
  let m0 := mkTodo [] "" [] ∅ in
  new ∅ = Some m0 /\
  let m := addTask 7 (set_inputEl "a" (addTask 7 (set_inputEl "b" m0))) in
  tasks m = [mkTask 7 "a" false; mkTask 7 "b" false] /\
  tasks (toggleTask 7 m) = [mkTask 7 "a" true; mkTask 7 "b" false] /\
  tasks (toggleTask 7 m) <> <[1%nat := toggle (mkTask 7 "b" false)]> (tasks m) /\
  tasks (deleteTask 7 m) = [] /\
  tasks (deleteTask 7 m) <> delete 1%nat (tasks m).
Proof.
  vm_compute. repeat split; discriminate.
Qed.

(** C7 (amended): adding a task whose trimmed text is not empty puts
    the new task [{ id: now, text, completed: false }] at the head of
    the list and keeps the existing tasks, in order, behind it;
    toggling the id of an existing task flips the [completed] flag of
    the first task with that id and changes nothing else in the list;
    deleting an id keeps, in order, exactly the tasks with another id.
    When the ids in the list are distinct, toggling the id of a task
    flips exactly that task, and deleting it removes exactly that
    task. *)
Theorem C7_todo_operations now id m :
  (JS.trim (inputEl m) <> "" ->
   tasks (addTask now m)
     = mkTask now (JS.trim (inputEl m)) false :: tasks m) /\
  ((exists t, t ∈ tasks m /\ task_id t = id) ->
   exists i t,
     tasks m !! i = Some t /\ task_id t = id /\
     (forall j u, tasks m !! j = Some u -> (j < i)%nat -> task_id u <> id) /\
     tasks (toggleTask id m) !! i
       = Some (mkTask (task_id t) (text t) (negb (completed t))) /\
     (forall j, j <> i -> tasks (toggleTask id m) !! j = tasks m !! j) /\
     length (tasks (toggleTask id m)) = length (tasks m)) /\
  (tasks (deleteTask id m) = filter (fun t => task_id t <> id) (tasks m) /\
   (forall t, t ∈ tasks (deleteTask id m) <-> t ∈ tasks m /\ task_id t <> id)) /\
  (forall i t, NoDup (task_id <$> tasks m) ->
     tasks m !! i = Some t -> task_id t = id ->
     tasks (toggleTask id m)
       = <[i := mkTask (task_id t) (text t) (negb (completed t))]> (tasks m) /\
     tasks (deleteTask id m) = delete i (tasks m)).
Proof.
  split; [|split; [|split]].
  - intros Hne. unfold addTask. now destruct (decide _).
  - intros (t & Hin & Hid).
    destruct (list_find_elem_of (fun t => task_id t = id) (tasks m) t Hin Hid)
      as [[i t0] Hfind].
    pose proof Hfind as (Hi & Ht0 & Hfirst)%list_find_Some.
    exists i, t0. unfold toggleTask. rewrite Hfind. cbn.
    split; [exact Hi|]. split; [exact Ht0|]. split; [exact Hfirst|].
    split; [|split].
    + apply list_lookup_insert_eq. eapply lookup_lt_Some; eauto.
    + intros j Hj. now apply list_lookup_insert_ne.
    + apply length_insert.
  - split; [reflexivity|].
    intros t. cbn. rewrite list_elem_of_filter. tauto.
  - intros i t Hnd Hi Ht. split.
    + unfold toggleTask. subst id.
      rewrite (list_find_distinct (tasks m) i t Hnd Hi). reflexivity.
    + cbn. now apply (filter_id_delete id _ i t).
Qed.

Lemma C7_todo_operations_witness :
  let m := mkTodo [mkTask 2 "b" false; mkTask 1 "a" false] " c " [] ∅ in
  tasks (addTask 3 m)
    = [mkTask 3 "c" false; mkTask 2 "b" false; mkTask 1 "a" false] /\
  (exists i t,
     tasks m !! i = Some t /\ task_id t = 1 /\
     (forall j u, tasks m !! j = Some u -> (j < i)%nat -> task_id u <> 1) /\
     tasks (toggleTask 1 m) !! i
       = Some (mkTask (task_id t) (text t) (negb (completed t))) /\
     (forall j, j <> i -> tasks (toggleTask 1 m) !! j = tasks m !! j) /\
     length (tasks (toggleTask 1 m)) = length (tasks m)) /\
  tasks (toggleTask 1 m) = [mkTask 2 "b" false; mkTask 1 "a" true] /\
  tasks (deleteTask 1 m) = [mkTask 2 "b" false].
Proof.
  intros m.
  destruct (C7_todo_operations 3 1 m) as (Hadd & Htoggle & _ & Hdistinct).
  split; [|split].
  - apply Hadd. discriminate.
  - apply Htoggle. exists (mkTask 1 "a" false). split; [|reflexivity].
    apply list_elem_of_In. cbn. auto.
  - apply (Hdistinct 1%nat (mkTask 1 "a" false)); [|reflexivity|reflexivity].
    cbn. apply NoDup_cons. split; [|apply NoDup_singleton].
    intros Hin. apply list_elem_of_singleton in Hin. discriminate.
Defined.

(** C10: when the input is empty or consists of white space only,
    [addTask] changes nothing: the task list, the stored text, the
    rendered list and the input box are all as before. *)
Theorem C10_addTask_blank now m :
  JS.all_chars JS.is_white_space (inputEl m) = true ->
  addTask now m = m /\
  tasks (addTask now m) = tasks m /\
  localStorage (addTask now m) = localStorage m.
Proof.
  intros H. apply trim_empty_iff in H.
  assert (E : addTask now m = m).
  { unfold addTask. now destruct (decide _). }
  now rewrite E.
Qed.

Lemma C10_addTask_blank_witness :
  let m := mkTodo [mkTask 1 "a" false] (String "009" "  ") [] ∅ in
  addTask 2 m = m /\
  tasks (addTask 2 m) = tasks m /\
  localStorage (addTask 2 m) = localStorage m.
Proof.
  apply (C10_addTask_blank 2 (mkTodo [mkTask 1 "a" false] (String "009" "  ") [] ∅)).
  reflexivity.
Defined.

(** C8: whatever the task list, after [save] the text stored under
    ['pomodoro-tasks'] is its JSON text, and the constructor run on that
    storage (a reload) parses it back to the same array of
    [{ id, text, completed }] objects: the list is equal to the one
    saved. *)
Theorem C8_save_reload m :
  getItem storage_key (localStorage (save m))
    = Some (JSON.stringify (js_of_tasks (tasks m))) /\
  JSON.parse (JSON.stringify (js_of_tasks (tasks m)))
    = JSON.Ok (js_of_tasks (tasks m)) /\
  stored_tasks (localStorage (save m)) = JSON.Ok (js_of_tasks (tasks m)) /\
  tasks <$> new (localStorage (save m)) = Some (tasks m).
Proof.
  assert (Hget : getItem storage_key (localStorage (save m))
                 = Some (JSON.stringify (js_of_tasks (tasks m))))
    by apply lookup_insert_eq.
  assert (Hparse : JSON.parse (JSON.stringify (js_of_tasks (tasks m)))
                   = JSON.Ok (js_of_tasks (tasks m)))
    by apply parse_stringify, js_of_tasks_well_formed.
  assert (Hstored : stored_tasks (localStorage (save m))
                    = JSON.Ok (js_of_tasks (tasks m))).
  { unfold stored_tasks. rewrite Hget, Hparse. reflexivity. }
  repeat split; try assumption.
  unfold new. rewrite Hstored, tasks_of_js_of_tasks. reflexivity.
Qed.

(** C9: with nothing stored under ['pomodoro-tasks'] the list starts
    empty; and what is stored is not validated: any truthy value the
    text parses to becomes [this.tasks] as it is (the number 42, an
    array of non-tasks), and a text that is not JSON makes the
    constructor throw. *)
Theorem C9_load_unvalidated :
  (forall ls, getItem storage_key ls = None ->
     stored_tasks ls = JSON.Ok (JArr []) /\ tasks <$> new ls = Some []) /\
  (forall ls s v,
     getItem storage_key ls = Some s -> JSON.parse s = JSON.Ok v ->
     truthy v = true -> stored_tasks ls = JSON.Ok v) /\
  stored_tasks {[ storage_key := "42" ]} = JSON.Ok (JNum 42) /\
  stored_tasks {[ storage_key := "[1,null]" ]}
    = JSON.Ok (JArr [JNum 1; JNull]) /\
  stored_tasks {[ storage_key := "[{" ]} = JSON.SyntaxError.
Proof.
  split; [|split; [|split; [|split]]].
  - intros ls H. unfold new, stored_tasks. rewrite H. split; reflexivity.
  - intros ls s v Hs Hp Ht. unfold stored_tasks. rewrite Hs, Hp. cbn.
    now rewrite Ht.
  - reflexivity.
  - reflexivity.
  - reflexivity.
Qed.

Lemma C9_load_unvalidated_witness :
  (stored_tasks ∅ = JSON.Ok (JArr []) /\ tasks <$> new ∅ = Some []) /\
  stored_tasks {[ storage_key := "true" ]} = JSON.Ok (JBool true).
Proof.
  destruct C9_load_unvalidated as (Habsent & Hany & _).
  split.
  - apply Habsent. reflexivity.
  - apply (Hany {[ storage_key := "true" ]} "true" (JBool true));
      reflexivity.
Defined.

End TodoClaims.

(** ** The timer under any sequence of events *)

Section TimerUIFacts.

Import Timer TimerUI.

Lemma run_app es1 : forall es2 p,
  run (es1 ++ es2) p = match run es1 p with
                       | Some p' => run es2 p'
                       | None => None
                       end.
Proof.
  induction es1 as [|e es1 IH]; intros es2 p; [reflexivity|].
  cbn [run app]. destruct (handle e p); [apply IH|reflexivity].
Qed.

(** An invariant of the timer that every handler keeps holds after any
    sequence of events. *)
Lemma run_invariant (I : PomodoroTimer -> Prop) :
  (forall t, I t -> I (toggleTimer t)) ->
  (forall t, I t -> I (resetTimer t)) ->
  (forall m t, I t -> I (setTime m t)) ->
  (forall t, I t -> I (on_tick t)) ->
  forall es p p', I (timer p) -> run es p = Some p' -> I (timer p').
Proof.
  intros Htoggle Hreset Hset Htick.
  induction es as [|e es IH]; intros p p' Hp; cbn [run].
  - now intros [= <-].
  - destruct (handle e p) as [q|] eqn:E; [|discriminate].
    apply IH. destruct e; cbn in E.
    + injection E as <-. now apply Htoggle.
    + injection E as <-. now apply Hreset.
    + destruct (modeChips p !! i); [|discriminate].
      injection E as <-. now apply Hset.
    + unfold tick in E. destruct (decide _); [discriminate|].
      injection E as <-. now apply Htick.
Qed.

Lemma pauseTimer_shown t : shown t -> shown (pauseTimer t).
Proof. now intros []. Qed.

Lemma startTimer_shown t : shown t -> shown (startTimer t).
Proof. unfold startTimer. now destruct (isRunning t). Qed.

Lemma updateDisplay_shown t : shown (updateDisplay t).
Proof. now split. Qed.

Lemma on_tick_shown t : shown (on_tick t).
Proof.
  unfold on_tick. destruct (_ <=? 0); apply updateDisplay_shown.
Qed.

Lemma toggleTimer_timeLeft t : timeLeft (toggleTimer t) = timeLeft t.
Proof.
  unfold toggleTimer. destruct (isRunning t) eqn:E; [reflexivity|].
  apply startTimer_timeLeft.
Qed.

Lemma toggleTimer_originalTime t :
  originalTime (toggleTimer t) = originalTime t.
Proof.
  unfold toggleTimer. destruct (isRunning t) eqn:E; [reflexivity|].
  apply startTimer_originalTime.
Qed.

Lemma on_tick_originalTime t : originalTime (on_tick t) = originalTime t.
Proof. unfold on_tick. now destruct (_ <=? 0). Qed.

Lemma on_tick_in_range t :
  0 < timeLeft t <= originalTime t ->
  0 < timeLeft (on_tick t) <= originalTime (on_tick t).
Proof.
  intros H. rewrite on_tick_originalTime. unfold on_tick. cbn.
  destruct (timeLeft t - 1 <=? 0) eqn:E; cbn; [lia|].
  apply Z.leb_gt in E. lia.
Qed.

Lemma lookup_select i chips j c :
  select i chips !! j = Some c ->
  exists c0, chips !! j = Some c0 /\ data_time c = data_time c0 /\
             chip_active c = bool_decide (j = i).
Proof.
  unfold select. rewrite list_lookup_imap.
  destruct (chips !! j) as [c0|]; [|discriminate].
  cbn. intros [= <-]. now exists c0.
Qed.

(** A started timer with the full duration [d] left completes at the
    [d]-th second. *)
Lemma ticks_complete d t :
  0 < d -> consistent t -> isRunning t = true ->
  timeLeft t = d -> originalTime t = d ->
  exists t',
    ticks (Z.to_nat d) t = Some t' /\ consistent t' /\
    alerts t' = (alerts t ++ ["Time is up!"])%list /\
    isRunning t' = false /\ timeLeft t' = d /\ originalTime t' = d.
Proof.
  intros Hd Hc Hr Hl Ho.
  destruct (ticks_running (pred (Z.to_nat d)) t Hc Hr)
    as (u & Hu & Hcu & Hlu & Hou & Hru & Hau); [lia|].
  replace (Z.to_nat d) with (S (pred (Z.to_nat d))) by lia.
  rewrite (ticks_snoc _ _ _ Hu), (tick_running u Hcu Hru).
  rewrite on_tick_expiry by lia.
  eexists. split; [reflexivity|].
  set (v := updateDisplay (set_timeLeft (timeLeft u - 1) u)).
  assert (Hcv : consistent v) by exact Hcu.
  split; [now apply completeTimer_consistent|].
  cbn. rewrite Hau. repeat split; congruence.
Qed.

Lemma ticks_app k1 : forall k2 t,
  ticks (k1 + k2) t = match ticks k1 t with
                      | Some t' => ticks k2 t'
                      | None => None
                      end.
Proof.
  induction k1 as [|k1 IH]; intros k2 t; [reflexivity|].
  cbn [ticks Nat.add]. destruct (tick t); [apply IH|reflexivity].
Qed.

End TimerUIFacts.

Section TimerUIProperties.

Import Timer TimerUI.

(** X1: after the page has loaded and any sequence of clicks and
    seconds, the timer is running exactly when its own interval -- and
    no other -- is registered; so a second can tick exactly when the
    timer is running, and never twice as fast. *)
Theorem X1_one_interval chips s b d es p :
  run es (load chips s b d) = Some p ->
  consistent (timer p) /\
  (is_Some (handle Second p) <-> isRunning (timer p) = true) /\
  (forall h1 h2, h1 ∈ intervals (timer p) -> h2 ∈ intervals (timer p) ->
                 h1 = h2).
Proof.
  intros Hrun.
  assert (Hc : consistent (timer p)).
  { apply (run_invariant consistent) with es (load chips s b d);
      auto using toggleTimer_consistent, resetTimer_consistent,
                 setTime_consistent, on_tick_consistent.
    apply new_consistent. }
  split; [exact Hc|]. split.
  - cbn [handle]. destruct (isRunning (timer p)) eqn:E.
    + rewrite (tick_running _ Hc E). split; [reflexivity|]. intros _. eauto.
    + rewrite (tick_paused _ Hc E). split; [|discriminate].
      now intros [q [=]].
  - unfold consistent in Hc. destruct (isRunning (timer p)).
    + destruct Hc as (h & _ & Hs). rewrite Hs. intros h1 h2.
      rewrite !elem_of_singleton. congruence.
    + rewrite Hc. intros h1 h2 H1. now apply not_elem_of_empty in H1.
Qed.

Lemma X1_one_interval_witness :
  exists p,
    run [ClickStartPause; Second; ClickStartPause; ClickStartPause; Second]
        (load presets "Focus" "Start" "ZenFocus") = Some p /\
    consistent (timer p) /\
    (is_Some (handle Second p) <-> isRunning (timer p) = true) /\
    (forall h1 h2, h1 ∈ intervals (timer p) -> h2 ∈ intervals (timer p) ->
                   h1 = h2).
Proof.
  destruct (run [ClickStartPause; Second; ClickStartPause; ClickStartPause;
                 Second] (load presets "Focus" "Start" "ZenFocus"))
    as [p|] eqn:E.
  - exists p. split; [reflexivity|].
    exact (X1_one_interval presets "Focus" "Start" "ZenFocus" _ p E).
  - vm_compute in E. discriminate E.
Defined.

(** X2: after any sequence of clicks and seconds the time on the page
    is the rendering of the remaining time, and the tab title is that
    text followed by [" - ZenFocus"]. *)
Theorem X2_display_in_step chips s b d es p :
  run es (load chips s b d) = Some p ->
  timeDisplay (timer p) = display_text (timeLeft (timer p)) /\
  title (timer p) = display_text (timeLeft (timer p)) +:+ " - ZenFocus".
Proof.
  intros Hrun.
  apply (run_invariant shown) with es (load chips s b d); try exact Hrun.
  - intros t Ht. unfold toggleTimer.
    destruct (isRunning t); [now apply pauseTimer_shown|now apply startTimer_shown].
  - intros t _. apply updateDisplay_shown.
  - intros m t _. apply updateDisplay_shown.
  - intros t _. apply on_tick_shown.
  - apply updateDisplay_shown.
Qed.

Lemma X2_display_in_step_witness :
  exists p,
    run [ClickChip 0; ClickStartPause; Second; Second]
        (load presets "Focus" "Start" "ZenFocus") = Some p /\
    timeDisplay (timer p) = display_text (timeLeft (timer p)) /\
    title (timer p) = display_text (timeLeft (timer p)) +:+ " - ZenFocus".
Proof.
  destruct (run [ClickChip 0; ClickStartPause; Second; Second]
                (load presets "Focus" "Start" "ZenFocus")) as [p|] eqn:E.
  - exists p. split; [reflexivity|].
    exact (X2_display_in_step presets "Focus" "Start" "ZenFocus" _ p E).
  - vm_compute in E. discriminate E.
Defined.

(** X3: when every chip carries a positive number of minutes, the
    remaining time stays between 1 and the duration after any sequence
    of clicks and seconds: the countdown never rests at zero and never
    goes negative. *)
Theorem X3_remaining_in_range chips s b d es p :
  Forall (fun c => 0 < data_time c) chips ->
  run es (load chips s b d) = Some p ->
  0 < timeLeft (timer p) <= originalTime (timer p).
Proof.
  intros Hpos.
  enough (H : forall es q q',
             modeChips q = chips \/ (exists i, modeChips q = select i chips) ->
             0 < timeLeft (timer q) <= originalTime (timer q) ->
             run es q = Some q' ->
             0 < timeLeft (timer q') <= originalTime (timer q')).
  { apply H; [now left|cbn; lia]. }
  clear es p. assert (Hsel : forall i j, select i (select j chips) = select i chips).
  { intros i j. apply list_eq. intros k. unfold select.
    rewrite !list_lookup_imap. now destruct (chips !! k). }
  induction es as [|e es IH]; intros q q' Hchips Hq; cbn [run].
  - now intros [= <-].
  - destruct (handle e q) as [q1|] eqn:E; [|discriminate].
    destruct e; cbn in E.
    + injection E as <-. apply IH; [exact Hchips|]. cbn.
      now rewrite toggleTimer_timeLeft, toggleTimer_originalTime.
    + injection E as <-. apply IH; [exact Hchips|]. cbn. lia.
    + destruct (modeChips q !! i) as [c|] eqn:Ec; [|discriminate].
      injection E as <-. apply IH.
      * right. exists i. cbn. destruct Hchips as [->|[j ->]]; [reflexivity|].
        apply Hsel.
      * cbn. assert (0 < data_time c); [|lia].
        destruct Hchips as [Hc|[j Hc]]; rewrite Hc in Ec.
        -- apply (proj1 (Forall_lookup _ _) Hpos i c Ec).
        -- apply lookup_select in Ec as (c0 & Ec & -> & _).
           apply (proj1 (Forall_lookup _ _) Hpos i c0 Ec).
    + unfold tick in E. destruct (decide _); [discriminate|].
      injection E as <-. apply IH; [exact Hchips|]. cbn.
      now apply on_tick_in_range.
Qed.

Lemma X3_remaining_in_range_witness :
  exists p,
    run [ClickChip 3; ClickStartPause; Second]
        (load presets "Focus" "Start" "ZenFocus") = Some p /\
    0 < timeLeft (timer p) <= originalTime (timer p).
Proof.
  destruct (run [ClickChip 3; ClickStartPause; Second]
                (load presets "Focus" "Start" "ZenFocus")) as [p|] eqn:E.
  - exists p. split; [reflexivity|].
    refine (X3_remaining_in_range presets "Focus" "Start" "ZenFocus" _ p _ E).
    repeat constructor.
  - vm_compute in E. discriminate E.
Defined.

(** X4: when the page loads with no chip highlighted other than one for
    the loaded duration, this stays so after any sequence of clicks and
    seconds: a highlighted chip is the only one, and the duration is its
    number of minutes times 60. *)
Theorem X4_highlight_matches chips s b d es p :
  highlight_matches (load chips s b d) ->
  run es (load chips s b d) = Some p ->
  highlight_matches p.
Proof.
  generalize (load chips s b d). clear chips s b d.
  induction es as [|e es IH]; intros q Hq; cbn [run].
  - now intros [= <-].
  - destruct (handle e q) as [q1|] eqn:E; [|discriminate].
    apply IH. destruct e; cbn in E.
    + injection E as <-. intros i c Hi Ha. cbn in *.
      rewrite toggleTimer_originalTime. now apply Hq.
    + injection E as <-. intros i c Hi Ha. cbn in *. now apply Hq.
    + destruct (modeChips q !! i) as [c0|] eqn:Ec; [|discriminate].
      injection E as <-. intros j c Hj Ha. cbn in *.
      apply lookup_select in Hj as (c1 & Hc1 & Hd & Hact).
      rewrite Hact in Ha. apply bool_decide_eq_true in Ha. subst j.
      split; [congruence|].
      intros j c' Hj Ha'. apply lookup_select in Hj as (_ & _ & _ & Hact').
      rewrite Hact' in Ha'. now apply bool_decide_eq_true in Ha'.
    + unfold tick in E. destruct (decide _); [discriminate|].
      injection E as <-. intros i c Hi Ha. cbn in *.
      rewrite on_tick_originalTime. now apply Hq.
Qed.

Lemma X4_highlight_matches_witness :
  exists p,
    run [ClickStartPause; Second; ClickChip 2; ClickReset]
        (load presets "Focus" "Start" "ZenFocus") = Some p /\
    highlight_matches p.
Proof.
  destruct (run [ClickStartPause; Second; ClickChip 2; ClickReset]
                (load presets "Focus" "Start" "ZenFocus")) as [p|] eqn:E.
  - exists p. split; [reflexivity|].
    refine (X4_highlight_matches presets "Focus" "Start" "ZenFocus" _ p _ E).
    intros i c Hi Ha.
    destruct i as [|[|[|[|i]]]]; cbn in Hi; try discriminate;
      injection Hi as <-; try discriminate Ha.
    split; [reflexivity|].
    intros j c' Hj Ha'.
    destruct j as [|[|[|[|j]]]]; cbn in Hj; try discriminate;
      injection Hj as <-; try discriminate Ha'; reflexivity.
  - vm_compute in E. discriminate E.
Defined.

(** X5: pausing keeps the progress.  From a paused timer with [d]
    seconds left: start, [k] seconds, pause, resume, [j] more seconds,
    with [k + j < d], leaves [d - k - j] seconds on a running timer;
    while it was paused no second could tick. *)
Theorem X5_pause_resume d k j t :
  consistent t -> isRunning t = false -> timeLeft t = d ->
  Z.of_nat k + Z.of_nat j < d ->
  exists t1 t2,
    ticks k (toggleTimer t) = Some t1 /\
    tick (toggleTimer t1) = None /\
    ticks j (toggleTimer (toggleTimer t1)) = Some t2 /\
    timeLeft t2 = d - Z.of_nat k - Z.of_nat j /\
    isRunning t2 = true /\ alerts t2 = alerts t.
Proof.
  intros Hc Hr Hl Hkj.
  assert (Ht : toggleTimer t = startTimer t)
    by (unfold toggleTimer; now rewrite Hr).
  destruct (ticks_running k (toggleTimer t))
    as (t1 & H1 & Hc1 & Hl1 & _ & Hr1 & Ha1).
  { now apply toggleTimer_consistent. }
  { rewrite Ht. apply startTimer_isRunning. }
  { rewrite toggleTimer_timeLeft. lia. }
  assert (Hp : toggleTimer t1 = pauseTimer t1)
    by (unfold toggleTimer; now rewrite Hr1).
  assert (Hs : toggleTimer (pauseTimer t1) = startTimer (pauseTimer t1))
    by reflexivity.
  destruct (ticks_running j (toggleTimer (toggleTimer t1)))
    as (t2 & H2 & _ & Hl2 & _ & Hr2 & Ha2).
  { now apply toggleTimer_consistent, toggleTimer_consistent. }
  { rewrite Hp, Hs. apply startTimer_isRunning. }
  { rewrite !toggleTimer_timeLeft, Hl1, toggleTimer_timeLeft. lia. }
  exists t1, t2. split; [exact H1|]. split.
  { rewrite Hp. apply tick_paused; [now apply pauseTimer_consistent|reflexivity]. }
  split; [exact H2|].
  rewrite Hl2, !toggleTimer_timeLeft, Hl1, toggleTimer_timeLeft.
  repeat split; [lia|exact Hr2|].
  rewrite Ha2, Hp, Hs, startTimer_alerts, pauseTimer_alerts, Ha1, Ht.
  apply startTimer_alerts.
Qed.

Lemma X5_pause_resume_witness :
  exists t1 t2,
    ticks 2 (toggleTimer (new "Focus" "Start" "ZenFocus")) = Some t1 /\
    tick (toggleTimer t1) = None /\
    ticks 3 (toggleTimer (toggleTimer t1)) = Some t2 /\
    timeLeft t2 = 1800 - 2 - 3 /\
    isRunning t2 = true /\ alerts t2 = [].
Proof.
  apply (X5_pause_resume 1800 2 3 (new "Focus" "Start" "ZenFocus")).
  - apply new_consistent.
  - reflexivity.
  - reflexivity.
  - lia.
Defined.

(** X6: resetting in the middle of a run.  With the full duration [d]
    left, start, [k < d] seconds, reset: the timer is paused with [d]
    seconds left and shown, no second can tick, and no notification was
    raised. *)
Theorem X6_reset_mid_run d k t :
  consistent t -> timeLeft t = d -> originalTime t = d ->
  Z.of_nat k < d ->
  exists t1,
    ticks k (startTimer t) = Some t1 /\
    timeLeft (resetTimer t1) = d /\
    isRunning (resetTimer t1) = false /\
    tick (resetTimer t1) = None /\
    timeDisplay (resetTimer t1) = display_text d /\
    alerts (resetTimer t1) = alerts t.
Proof.
  intros Hc Hl Ho Hk.
  destruct (ticks_running k (startTimer t))
    as (t1 & H1 & Hc1 & Hl1 & Ho1 & Hr1 & Ha1).
  { now apply startTimer_consistent. }
  { apply startTimer_isRunning. }
  { rewrite startTimer_timeLeft. lia. }
  rewrite startTimer_originalTime in Ho1. rewrite startTimer_alerts in Ha1.
  exists t1. split; [exact H1|]. cbn.
  repeat split; try congruence.
  apply tick_paused; [now apply resetTimer_consistent|reflexivity].
Qed.

Lemma X6_reset_mid_run_witness :
  exists t1,
    ticks 5 (startTimer (new "Focus" "Start" "ZenFocus")) = Some t1 /\
    timeLeft (resetTimer t1) = 1800 /\
    isRunning (resetTimer t1) = false /\
    tick (resetTimer t1) = None /\
    timeDisplay (resetTimer t1) = display_text 1800 /\
    alerts (resetTimer t1) = [].
Proof.
  apply (X6_reset_mid_run 1800 5 (new "Focus" "Start" "ZenFocus")).
  - apply new_consistent.
  - reflexivity.
  - reflexivity.
  - lia.
Defined.

(** X7: the timer can be run again and again.  With the full duration
    [d > 0] left on a paused timer, [n] rounds of "click start, let [d]
    seconds pass" raise exactly [n] notifications and leave the timer
    paused with [d] seconds left. *)
Theorem X7_repeated_runs d n p :
  0 < d -> consistent (timer p) -> isRunning (timer p) = false ->
  timeLeft (timer p) = d -> originalTime (timer p) = d ->
  exists p',
    run (concat (replicate n (ClickStartPause :: replicate (Z.to_nat d) Second))) p
      = Some p' /\
    alerts (timer p') = (alerts (timer p) ++ replicate n "Time is up!")%list /\
    isRunning (timer p') = false /\ timeLeft (timer p') = d /\
    modeChips p' = modeChips p.
Proof.
  intros Hd. revert p.
  assert (Hsec : forall k q t',
            ticks k (timer q) = Some t' ->
            run (replicate k Second) q = Some (mkTimerPage t' (modeChips q))).
  { induction k as [|k IH]; intros q t'; cbn [ticks replicate run].
    - intros [= <-]. now destruct q.
    - cbn [handle]. destruct (tick (timer q)) as [t1|]; [|discriminate].
      intros H. now apply (IH (mkTimerPage t1 (modeChips q))). }
  induction n as [|n IH]; intros p Hc Hr Hl Ho.
  - exists p. cbn. rewrite app_nil_r. auto.
  - cbn [replicate concat]. rewrite <- app_comm_cons. cbn [run handle].
    rewrite run_app.
    destruct (ticks_complete d (toggleTimer (timer p)))
      as (t' & Ht & Hc' & Ha' & Hr' & Hl' & Ho'); auto.
    { now apply toggleTimer_consistent. }
    { unfold toggleTimer. rewrite Hr. apply startTimer_isRunning. }
    { now rewrite toggleTimer_timeLeft. }
    { now rewrite toggleTimer_originalTime. }
    rewrite (Hsec _ (mkTimerPage (toggleTimer (timer p)) (modeChips p)) t' Ht).
    cbn [modeChips].
    destruct (IH (mkTimerPage t' (modeChips p))) as (p' & Hp' & Ha & Hrp & Hlp & Hm);
      auto.
    exists p'. split; [exact Hp'|]. cbn in Ha.
    rewrite Ha, Ha'. unfold toggleTimer. rewrite Hr, startTimer_alerts.
    rewrite <- app_assoc. auto.
Qed.

Lemma X7_repeated_runs_witness :
  let p := mkTimerPage (setTime 1 (new "Focus" "Start" "ZenFocus")) [] in
  exists p',
    run (concat (replicate 3 (ClickStartPause :: replicate 60 Second))) p
      = Some p' /\
    alerts (timer p') = ["Time is up!"; "Time is up!"; "Time is up!"] /\
    isRunning (timer p') = false /\ timeLeft (timer p') = 60 /\
    modeChips p' = [].
Proof.
  apply (X7_repeated_runs 60 3
           (mkTimerPage (setTime 1 (new "Focus" "Start" "ZenFocus")) [])).
  - lia.
  - apply setTime_consistent, new_consistent.
  - reflexivity.
  - reflexivity.
  - reflexivity.
Defined.

End TimerUIProperties.

(** ** The to-do list under any sequence of actions *)

Section TodoUIFacts.

Import Todo TodoUI.

#[local] Arguments String.append !s1 s2 : simpl nomatch.

Lemma reload_stored ls l :
  getItem storage_key ls = Some (JSON.stringify (js_of_tasks l)) ->
  new ls = Some (render (mkTodo l "" [] ls)).
Proof.
  intros H. unfold new, stored_tasks. rewrite H.
  rewrite parse_stringify by apply js_of_tasks_well_formed.
  cbn [JSON.bind truthy js_of_tasks]. now rewrite tasks_of_js_of_tasks.
Qed.

Lemma in_sync_restorable m : in_sync m -> restorable m.
Proof.
  intros [Hs Hl]. split; [|exact Hl].
  now rewrite (reload_stored _ _ Hs).
Qed.

Lemma new_restorable ls m : new ls = Some m -> restorable m.
Proof.
  unfold new. destruct (stored_tasks ls) as [v| | |] eqn:E; try discriminate.
  destruct (tasks_of_js v) as [l|] eqn:El; [|discriminate].
  intros [= <-]. split; [|reflexivity]. cbn [localStorage render tasks].
  unfold new. now rewrite E, El.
Qed.

Lemma handle_restorable e m m' :
  restorable m -> handle e m = Some m' -> restorable m'.
Proof.
  intros Hm. destruct e; cbn [handle].
  - intros [= <-]. exact Hm.
  - intros [= <-]. unfold addTask. destruct (decide _); [exact Hm|].
    apply in_sync_restorable. split; [|reflexivity]. apply lookup_insert_eq.
  - destruct (listEl m !! j) as [li|]; [|discriminate]. intros [= <-].
    unfold toggleTask. destruct (list_find _ _) as [[i t]|]; [|exact Hm].
    apply in_sync_restorable, render_save_in_sync.
  - destruct (listEl m !! j) as [li|]; [|discriminate]. intros [= <-].
    apply in_sync_restorable, render_save_in_sync.
Qed.

(** Toggling keeps the first position of an id. *)
Lemma list_find_toggle id (l : list Task) i t :
  list_find (fun t => task_id t = id) l = Some (i, t) ->
  list_find (fun t => task_id t = id) (<[i := toggle t]> l)
    = Some (i, toggle t).
Proof.
  intros (Hi & Ht & Hfirst)%list_find_Some. apply list_find_Some.
  split; [|split].
  - apply list_lookup_insert_eq. eapply lookup_lt_Some; eauto.
  - exact Ht.
  - intros j y Hj Hlt. rewrite list_lookup_insert_ne in Hj by lia.
    now apply (Hfirst j).
Qed.

Lemma toggle_toggle t : toggle (toggle t) = t.
Proof. destruct t as [i s c]. unfold toggle. cbn. now rewrite negb_involutive. Qed.

(** *** [trim] *)

Lemma trimStart_split s :
  exists a, s = a +:+ JS.trimStart s /\ JS.all_chars JS.is_white_space a = true.
Proof.
  induction s as [|c r (a & Ha & Hw)]; [now exists ""|].
  cbn [JS.trimStart]. destruct (JS.is_white_space c) eqn:E.
  - exists (String c a). cbn. rewrite E, Hw. split; [now rewrite <- Ha|reflexivity].
  - now exists "".
Qed.

Lemma trimEnd_split s :
  exists b, s = JS.trimEnd s +:+ b /\ JS.all_chars JS.is_white_space b = true.
Proof.
  induction s as [|c r (b & Hb & Hw)]; [now exists ""|].
  cbn [JS.trimEnd]. destruct (JS.trimEnd r) as [|c' r'] eqn:E.
  - cbn in Hb. subst r. destruct (JS.is_white_space c) eqn:Ec.
    + exists (String c b). cbn. now rewrite Ec, Hw.
    + now exists b.
  - exists b. split; [|exact Hw]. now rewrite app_cons, <- Hb.
Qed.

Lemma trimEnd_idem s : JS.trimEnd (JS.trimEnd s) = JS.trimEnd s.
Proof.
  induction s as [|c r IH]; [reflexivity|].
  cbn [JS.trimEnd]. destruct (JS.trimEnd r) as [|c' r'] eqn:E.
  - destruct (JS.is_white_space c) eqn:Ec; [reflexivity|].
    cbn. now rewrite Ec.
  - cbn [JS.trimEnd] in *. now rewrite IH.
Qed.

Lemma trimStart_fixed c r :
  JS.is_white_space c = false -> JS.trimStart (String c r) = String c r.
Proof. intros H. cbn. now rewrite H. Qed.

Lemma trimEnd_keeps_head c r :
  JS.is_white_space c = false ->
  exists r', JS.trimEnd (String c r) = String c r'.
Proof.
  intros H. cbn. destruct (JS.trimEnd r); [rewrite H|]; eauto.
Qed.

Lemma trimStart_trim s : JS.trimStart (JS.trim s) = JS.trim s.
Proof.
  unfold JS.trim. destruct (JS.trimStart s) as [|c r] eqn:E; [reflexivity|].
  apply trimStart_head in E.
  destruct (trimEnd_keeps_head c r E) as (r' & ->).
  now apply trimStart_fixed.
Qed.

Lemma trimEnd_trim s : JS.trimEnd (JS.trim s) = JS.trim s.
Proof. apply trimEnd_idem. Qed.

Lemma trim_idem s : JS.trim (JS.trim s) = JS.trim s.
Proof.
  unfold JS.trim at 1. rewrite trimStart_trim. apply trimEnd_trim.
Qed.

Lemma trim_split s :
  exists a b, s = a +:+ JS.trim s +:+ b /\
              JS.all_chars JS.is_white_space a = true /\
              JS.all_chars JS.is_white_space b = true.
Proof.
  destruct (trimStart_split s) as (a & Ha & Hwa).
  destruct (trimEnd_split (JS.trimStart s)) as (b & Hb & Hwb).
  exists a, b. unfold JS.trim. now rewrite <- Hb.
Qed.

End TodoUIFacts.

Section TodoUIProperties.

Import Todo TodoUI.

(** X8: once the page has loaded a stored task array, then after any
    sequence of user actions a reload would restore exactly the current
    list, and the page shows exactly the current tasks. *)
Theorem X8_always_restorable ls m0 es m :
  new ls = Some m0 -> run es m0 = Some m ->
  tasks <$> new (localStorage m) = Some (tasks m) /\
  listEl m = map render_item (tasks m).
Proof.
  intros H0%new_restorable. revert m0 H0.
  induction es as [|e es IH]; intros m0 H0; cbn [run].
  - now intros [= <-].
  - destruct (handle e m0) as [m1|] eqn:E; [|discriminate].
    apply IH. eapply handle_restorable; eauto.
Qed.

Lemma X8_always_restorable_witness :
  exists m0 m,
    new ∅ = Some m0 /\
    run [Input " tea "; Add 10; Input "milk"; Add 11; Toggle 1; Delete 0] m0
      = Some m /\
    tasks <$> new (localStorage m) = Some (tasks m) /\
    listEl m = map render_item (tasks m).
Proof.
  destruct (new ∅) as [m0|] eqn:E0; [|vm_compute in E0; discriminate E0].
  destruct (run [Input " tea "; Add 10; Input "milk"; Add 11; Toggle 1;
                 Delete 0] m0) as [m|] eqn:E.
  - exists m0, m. split; [reflexivity|]. split; [exact E|].
    exact (X8_always_restorable ∅ m0 _ m E0 E).
  - vm_compute in E0. injection E0 as <-. vm_compute in E. discriminate E.
Defined.

(** X9: toggling the same id twice gives back the list; when the page
    was in step with the list (stored text and rendered items), it
    gives back the whole state. *)
Theorem X9_toggle_twice id m :
  tasks (toggleTask id (toggleTask id m)) = tasks m /\
  (in_sync m -> toggleTask id (toggleTask id m) = m).
Proof.
  unfold toggleTask at 2 4.
  destruct (list_find _ (tasks m)) as [[i t]|] eqn:E.
  - pose proof (list_find_toggle id _ i t E) as E'.
    pose proof E as (Hi & _)%list_find_Some.
    assert (Ht : <[i := toggle (toggle t)]> (<[i := toggle t]> (tasks m))
                 = tasks m).
    { rewrite list_insert_insert_eq, toggle_toggle. now apply list_insert_id. }
    unfold toggleTask. cbn [tasks render save set_tasks]. rewrite E'.
    cbn [tasks render save set_tasks inputEl listEl localStorage].
    rewrite Ht. split; [reflexivity|].
    intros [Hs Hl]. destruct m as [l inp el ls].
    unfold render, save, set_tasks, setItem, getItem in *.
    cbn [tasks inputEl listEl localStorage] in *.
    rewrite insert_insert_eq, insert_id by exact Hs.
    now rewrite Hl.
  - unfold toggleTask. rewrite E. auto.
Qed.

Lemma X9_toggle_twice_witness :
  let m := render (save (mkTodo [mkTask 2 "b" false; mkTask 1 "a" true] "" [] ∅)) in
  tasks (toggleTask 1 (toggleTask 1 m)) = tasks m /\
  toggleTask 1 (toggleTask 1 m) = m.
Proof.
  intros m. destruct (X9_toggle_twice 1 m) as [H1 H2].
  split; [exact H1|]. apply H2. apply render_save_in_sync.
Defined.

(** X10: deleting is idempotent and deletions commute, on the whole
    state; deleting an id no task carries leaves the list as it is. *)
Theorem X10_delete_laws a b m :
  deleteTask a (deleteTask a m) = deleteTask a m /\
  deleteTask a (deleteTask b m) = deleteTask b (deleteTask a m) /\
  ((forall t, t ∈ tasks m -> task_id t <> a) ->
   tasks (deleteTask a m) = tasks m).
Proof.
  unfold deleteTask, render, save, set_tasks, setItem. cbn.
  split; [|split].
  - rewrite insert_insert_eq.
    rewrite list_filter_filter_l by auto. reflexivity.
  - rewrite !insert_insert_eq, !list_filter_filter.
    rewrite (list_filter_iff (fun t => task_id t <> a /\ task_id t <> b)
                             (fun t => task_id t <> b /\ task_id t <> a))
      by (intros t; tauto).
    reflexivity.
  - intros H. apply filter_keep_all, Forall_forall. exact H.
Qed.

Lemma X10_delete_laws_witness :
  let m := mkTodo [mkTask 2 "b" false; mkTask 1 "a" true] "" [] ∅ in
  deleteTask 7 (deleteTask 7 m) = deleteTask 7 m /\
  deleteTask 7 (deleteTask 2 m) = deleteTask 2 (deleteTask 7 m) /\
  tasks (deleteTask 7 m) = tasks m.
Proof.
  intros m. destruct (X10_delete_laws 7 2 m) as (H1 & H2 & H3).
  split; [exact H1|]. split; [exact H2|]. apply H3.
  intros t Ht. apply list_elem_of_In in Ht.
  destruct Ht as [<-|[<-|[]]]; discriminate.
Defined.

(** X11: adding a task and then deleting its id leaves the tasks that
    had another id; so it undoes the addition when the time stamp was
    new, and also removes an older task created in the same
    millisecond. *)
Theorem X11_add_then_delete now m :
  JS.trim (inputEl m) <> "" ->
  tasks (deleteTask now (addTask now m))
    = filter (fun t => task_id t <> now) (tasks m) /\
  ((forall t, t ∈ tasks m -> task_id t <> now) ->
   tasks (deleteTask now (addTask now m)) = tasks m).
Proof.
  intros Hne.
  assert (E : tasks (deleteTask now (addTask now m))
              = filter (fun t => task_id t <> now) (tasks m)).
  { unfold addTask. destruct (decide _); [contradiction|].
    unfold deleteTask, render, save, set_tasks, set_inputEl. cbn [tasks].
    rewrite filter_cons_False; [reflexivity|]. cbn [task_id]. tauto. }
  split; [exact E|]. intros H. rewrite E.
  apply filter_keep_all, Forall_forall. exact H.
Qed.

Lemma X11_add_then_delete_witness :
  let m := mkTodo [mkTask 2 "b" false; mkTask 1 "a" true] "c" [] ∅ in
  tasks (deleteTask 3 (addTask 3 m)) = tasks m /\
  tasks (deleteTask 2 (addTask 2 m)) = [mkTask 1 "a" true].
Proof.
  intros m. split.
  - apply (X11_add_then_delete 3 m); [discriminate|].
    intros t Ht. apply list_elem_of_In in Ht.
    destruct Ht as [<-|[<-|[]]]; discriminate.
  - apply (X11_add_then_delete 2 m). discriminate.
Defined.

(** X12: the text of an added task is the input without the white
    space around it -- the input is that text between two runs of white
    space -- it is not empty, trimming it again changes nothing, the
    task starts not completed, and the input box is cleared. *)
Theorem X12_added_text now m :
  JS.trim (inputEl m) <> "" ->
  exists t rest a b,
    tasks (addTask now m) = t :: rest /\
    inputEl m = a +:+ text t +:+ b /\
    JS.all_chars JS.is_white_space a = true /\
    JS.all_chars JS.is_white_space b = true /\
    text t <> "" /\
    JS.trimStart (text t) = text t /\ JS.trimEnd (text t) = text t /\
    completed t = false /\ task_id t = now /\
    inputEl (addTask now m) = "".
Proof.
  intros Hne. destruct (trim_split (inputEl m)) as (a & b & Hs & Ha & Hb).
  exists (mkTask now (JS.trim (inputEl m)) false), (tasks m), a, b.
  unfold addTask. destruct (decide _); [contradiction|]. cbn.
  repeat split; auto using trimStart_trim, trimEnd_trim.
Qed.

Lemma X12_added_text_witness :
  exists t rest a b,
    tasks (addTask 5 (mkTodo [] "  buy milk " [] ∅)) = t :: rest /\
    "  buy milk " = a +:+ text t +:+ b /\
    JS.all_chars JS.is_white_space a = true /\
    JS.all_chars JS.is_white_space b = true /\
    text t <> "" /\
    JS.trimStart (text t) = text t /\ JS.trimEnd (text t) = text t /\
    completed t = false /\ task_id t = 5 /\
    inputEl (addTask 5 (mkTodo [] "  buy milk " [] ∅)) = "".
Proof.
  apply (X12_added_text 5 (mkTodo [] "  buy milk " [] ∅)). discriminate.
Defined.

(** X13: when the page shows the current tasks and their ids are
    distinct, a click on the checkbox or text of the [j]-th item flips
    [completed] of the [j]-th task and nothing else, and a click on its
    delete button removes the [j]-th task and nothing else. *)
Theorem X13_click_hits_item j t m :
  listEl m = map render_item (tasks m) ->
  NoDup (task_id <$> tasks m) ->
  tasks m !! j = Some t ->
  (exists m', handle (Toggle j) m = Some m' /\
              tasks m' = <[j := toggle t]> (tasks m)) /\
  (exists m', handle (Delete j) m = Some m' /\
              tasks m' = delete j (tasks m)).
Proof.
  intros Hl Hnd Hj.
  assert (Hli : listEl m !! j = Some (render_item t)).
  { rewrite Hl. change (map render_item (tasks m)) with (render_item <$> tasks m).
    now rewrite list_lookup_fmap, Hj. }
  cbn [handle]. rewrite Hli. cbn [render_item handler_id]. split.
  - eexists. split; [reflexivity|]. unfold toggleTask.
    now rewrite (list_find_distinct _ j t Hnd Hj).
  - eexists. split; [reflexivity|]. cbn [deleteTask tasks render save set_tasks].
    now apply (filter_id_delete (task_id t) _ j t).
Qed.

Lemma X13_click_hits_item_witness :
  let m := render (mkTodo [mkTask 3 "c" false; mkTask 2 "b" false;
                           mkTask 1 "a" false] "" [] ∅) in
  (exists m', handle (Toggle 1) m = Some m' /\
              tasks m' = [mkTask 3 "c" false; mkTask 2 "b" true;
                          mkTask 1 "a" false]) /\
  (exists m', handle (Delete 1) m = Some m' /\
              tasks m' = [mkTask 3 "c" false; mkTask 1 "a" false]).
Proof.
  intros m.
  apply (X13_click_hits_item 1 (mkTask 2 "b" false) m).
  - reflexivity.
  - cbn. repeat (apply NoDup_cons_2;
      [rewrite list_elem_of_In; cbn; intuition discriminate|]).
    apply NoDup_nil_2.
  - reflexivity.
Defined.

(** X14: distinct ids stay distinct: under toggling and deleting
    always, and under adding when no task carries the new time stamp. *)
Theorem X14_ids_stay_distinct now id m :
  NoDup (task_id <$> tasks m) ->
  ((forall t, t ∈ tasks m -> task_id t <> now) ->
   NoDup (task_id <$> tasks (addTask now m))) /\
  NoDup (task_id <$> tasks (toggleTask id m)) /\
  NoDup (task_id <$> tasks (deleteTask id m)).
Proof.
  intros Hnd. split; [|split].
  - intros Hfresh. unfold addTask. destruct (decide _); [exact Hnd|].
    cbn [tasks set_inputEl render save set_tasks]. rewrite fmap_cons.
    apply NoDup_cons_2; [|exact Hnd]. cbn [task_id].
    intros (t & Ht & Hin)%list_elem_of_fmap. now apply (Hfresh t).
  - unfold toggleTask. destruct (list_find _ _) as [[i t]|] eqn:E; [|exact Hnd].
    apply list_find_Some in E as (Hi & _).
    cbn [tasks render save set_tasks]. rewrite list_fmap_insert.
    cbn [toggle task_id]. rewrite list_insert_id; [exact Hnd|].
    now rewrite list_lookup_fmap, Hi.
  - cbn [deleteTask tasks render save set_tasks].
    eapply sublist_NoDup; [exact Hnd|].
    apply fmap_sublist, sublist_filter.
Qed.

Lemma X14_ids_stay_distinct_witness :
  let m := mkTodo [mkTask 2 "b" false; mkTask 1 "a" false] "c" [] ∅ in
  NoDup (task_id <$> tasks (addTask 3 m)) /\
  NoDup (task_id <$> tasks (toggleTask 1 m)) /\
  NoDup (task_id <$> tasks (deleteTask 2 m)).
Proof.
  intros m.
  assert (Hnd : NoDup (task_id <$> tasks m)).
  { cbn. repeat (apply NoDup_cons_2;
      [rewrite list_elem_of_In; cbn; intuition discriminate|]).
    apply NoDup_nil_2. }
  destruct (X14_ids_stay_distinct 3 1 m Hnd) as (Hadd & Htog & _).
  destruct (X14_ids_stay_distinct 3 2 m Hnd) as (_ & _ & Hdel).
  split; [|split; [exact Htog|exact Hdel]].
  apply Hadd. intros t Ht. apply list_elem_of_In in Ht.
  destruct Ht as [<-|[<-|[]]]; discriminate.
Defined.

(** X15: when two tasks carry the same id (created in the same
    millisecond), a click on the later one's checkbox flips the earlier
    one and leaves the clicked one as it was, and a click on the delete
    button of either removes both. *)
Theorem X15_shared_id l1 t1 l2 t2 l3 m :
  tasks m = (l1 ++ t1 :: l2 ++ t2 :: l3)%list ->
  listEl m = map render_item (tasks m) ->
  task_id t1 = task_id t2 ->
  Forall (fun t => task_id t <> task_id t2) l1 ->
  (exists m', handle (Toggle (length l1 + S (length l2))) m = Some m' /\
              tasks m' = (l1 ++ toggle t1 :: l2 ++ t2 :: l3)%list) /\
  (exists m', handle (Delete (length l1 + S (length l2))) m = Some m' /\
              (t1 ∉ tasks m') /\ (t2 ∉ tasks m')).
Proof.
  intros Ht Hl Hid Hl1.
  assert (Hj : tasks m !! (length l1 + S (length l2))%nat = Some t2).
  { rewrite Ht.
    change (t1 :: l2 ++ t2 :: l3)%list with ((t1 :: l2) ++ t2 :: l3)%list.
    rewrite app_assoc. apply list_lookup_middle.
    rewrite length_app. reflexivity. }
  assert (Hli : listEl m !! (length l1 + S (length l2))%nat
                = Some (render_item t2)).
  { rewrite Hl. change (map render_item (tasks m)) with (render_item <$> tasks m).
    now rewrite list_lookup_fmap, Hj. }
  cbn [handle]. rewrite Hli. cbn [render_item handler_id]. split.
  - eexists. split; [reflexivity|]. unfold toggleTask.
    assert (Hf : list_find (fun t => task_id t = task_id t2) (tasks m)
                 = Some (length l1, t1)).
    { apply list_find_Some. rewrite Ht. split; [|split; [exact Hid|]].
      - now apply list_lookup_middle.
      - intros i y Hi Hlt. rewrite lookup_app_l in Hi by lia.
        apply (proj1 (Forall_lookup _ _) Hl1 i y Hi). }
    rewrite Hf. cbn [tasks render save set_tasks]. rewrite Ht.
    rewrite insert_app_r_alt by lia.
    now replace (length l1 - length l1)%nat with 0%nat by lia.
  - eexists. split; [reflexivity|]. cbn [deleteTask tasks render save set_tasks].
    rewrite !list_elem_of_filter. split; intros [H _]; congruence.
Qed.

Lemma X15_shared_id_witness :
  let m := render (mkTodo [mkTask 9 "c" false; mkTask 7 "b" false;
                           mkTask 8 "x" false; mkTask 7 "a" false] "" [] ∅) in
  (exists m', handle (Toggle 3) m = Some m' /\
              tasks m' = [mkTask 9 "c" false; mkTask 7 "b" true;
                          mkTask 8 "x" false; mkTask 7 "a" false]) /\
  (exists m', handle (Delete 3) m = Some m' /\
              (mkTask 7 "b" false ∉ tasks m') /\
              (mkTask 7 "a" false ∉ tasks m')).
Proof.
  intros m.
  apply (X15_shared_id [mkTask 9 "c" false] (mkTask 7 "b" false)
           [mkTask 8 "x" false] (mkTask 7 "a" false) [] m).
  - reflexivity.
  - reflexivity.
  - reflexivity.
  - repeat constructor. discriminate.
Defined.

End TodoUIProperties.

(** ** The background picker *)

Section BackgroundFacts.

Import Background.

Lemma insert_before_label_split btn before after :
  UploadLabel ∉ before ->
  insert_before_label btn (before ++ UploadLabel :: after)
    = (before ++ btn :: UploadLabel :: after)%list.
Proof.
  induction before as [|c before IH]; intros Hn; [reflexivity|].
  apply not_elem_of_cons in Hn as [Hc Hn].
  destruct c; [|congruence]. cbn. now rewrite IH.
Qed.

Lemma saved_options_cons c l :
  saved_options (c :: l)
    = match option_key c with
      | Some x => x :: saved_options l
      | None => saved_options l
      end.
Proof. reflexivity. Qed.

Lemma insert_before_label_saved btn l :
  saved_options (insert_before_label btn l)
    ≡ₚ (saved_options [btn] ++ saved_options l)%list.
Proof.
  induction l as [|c l IH]; [cbn; now rewrite app_nil_r|].
  destruct c as [n d a|].
  - cbn [insert_before_label]. rewrite !saved_options_cons. cbn [option_key].
    rewrite IH. apply Permutation_middle.
  - cbn [insert_before_label].
    rewrite (saved_options_cons btn), (saved_options_cons btn []).
    now destruct (option_key btn).
Qed.

Lemma option_key_imap (f : nat -> GridChild -> GridChild) : forall l,
  (forall j c, option_key (f j c) = option_key c) ->
  saved_options (imap f l) = saved_options l.
Proof.
  intros l. revert f. unfold saved_options.
  induction l as [|c l IH]; intros f Hf; [reflexivity|].
  rewrite imap_cons. fold (saved_options (f 0%nat c :: imap (f ∘ S) l)).
  fold (saved_options (c :: l)). rewrite !saved_options_cons, Hf.
  unfold saved_options. rewrite IH; [reflexivity|].
  intros j c'. apply Hf.
Qed.

Lemma setActive_saved_options target b :
  saved_options (savedGrid (setActive target b)) = saved_options (savedGrid b).
Proof.
  cbn [setActive savedGrid]. apply option_key_imap. now intros j [].
Qed.

(** Loading inserts one option per record, in order, before the label. *)
Lemma load_options images : forall b before after,
  savedGrid b = (before ++ UploadLabel :: after)%list ->
  UploadLabel ∉ before ->
  fold_left (fun b img => addSavedOption img b) images b
    = set_savedGrid (before ++ (option_of <$> images) ++ UploadLabel :: after) b.
Proof.
  induction images as [|r images IH]; intros b before after Hg Hn.
  - cbn. rewrite <- Hg. now destruct b.
  - cbn [fold_left fmap list_fmap].
    rewrite (IH (addSavedOption r b) (before ++ [option_of r])%list after).
    + unfold addSavedOption, set_savedGrid. cbn.
      now rewrite <- !app_assoc.
    + unfold addSavedOption. cbn [savedGrid set_savedGrid]. rewrite Hg.
      rewrite insert_before_label_split by exact Hn.
      now rewrite <- app_assoc.
    + rewrite not_elem_of_app. split; [exact Hn|].
      rewrite list_elem_of_singleton. discriminate.
Qed.

Lemma load_options_saved images : forall b,
  saved_options (savedGrid (fold_left (fun b img => addSavedOption img b) images b))
    ≡ₚ (saved_options (savedGrid b)
        ++ ((fun r => (img_name r, img_data r)) <$> images))%list /\
  storage (fold_left (fun b img => addSavedOption img b) images b) = storage b.
Proof.
  induction images as [|r images IH]; intros b.
  - cbn. now rewrite app_nil_r.
  - cbn [fold_left]. destruct (IH (addSavedOption r b)) as [Hp Hs].
    split; [|now rewrite Hs]. rewrite Hp.
    unfold addSavedOption. cbn [savedGrid set_savedGrid].
    rewrite insert_before_label_saved. cbn [fmap list_fmap].
    change (saved_options [SavedOption (img_name r) (img_data r) false])
      with [(img_name r, img_data r)].
    cbn [app]. apply Permutation_middle.
Qed.

Lemma getAll_add_perm item os os' :
  IDB.add item os = Some os' -> IDB.getAll os' ≡ₚ item :: IDB.getAll os.
Proof.
  unfold IDB.add. destruct (os !! img_id item) eqn:E; [discriminate|].
  intros [= <-]. unfold IDB.getAll.
  rewrite !merge_sort_Permutation, map_to_list_insert by exact E.
  cbn [fmap list_fmap]. now destruct item.
Qed.

Lemma saveImage_rejected now f s :
  match s with
  | Opened images => is_Some (images !! now)
  | OpenFailed _ => True
  end ->
  exists e, Storage.saveImage now f s = (Rejected e, s).
Proof.
  destruct s as [images|e]; cbn; [|eauto].
  intros [v Hv]. unfold IDB.add. cbn. rewrite Hv. eauto.
Qed.

Lemma saveImage_resolved now f images :
  images !! now = None ->
  Storage.saveImage now f (Opened images)
    = (Resolved (mkImage now (file_name f) (DataURL.readAsDataURL f)),
       Opened (<[now := (file_name f, DataURL.readAsDataURL f)]> images)).
Proof. intros H. cbn. unfold IDB.add. cbn. now rewrite H. Qed.

End BackgroundFacts.

Section BackgroundProperties.

Import Background.

(** X16: an upload that cannot be saved -- the store could not be
    opened, or already holds a record under the current time stamp --
    changes nothing on the page and in the store: no option is added,
    the background and the modal stay as they are; one alert and one
    console message are raised. *)
Theorem X16_failed_upload now f b :
  match storage b with
  | Opened images => is_Some (images !! now)
  | OpenFailed _ => True
  end ->
  upload now (Some f) b
    = mkBackground (storage b) (layer b) (presetOptions b) (savedGrid b)
        (modal_hidden b)
        (bg_alerts b ++ ["Could not save image to storage."])
        (console_errors b ++ ["Failed to save image"]).
Proof.
  intros H. destruct (saveImage_rejected now f _ H) as (e & He).
  unfold upload. rewrite He. reflexivity.
Qed.

Lemma X16_failed_upload_witness :
  let b := mkBackground (Opened {[ 5 := ("b.png", "data:,") ]}) None []
                        [UploadLabel] false [] [] in
  upload 5 (Some Storage.a_png) b
    = mkBackground (Opened {[ 5 := ("b.png", "data:,") ]}) None []
        [UploadLabel] false
        ["Could not save image to storage."] ["Failed to save image"].
Proof.
  apply (X16_failed_upload 5 Storage.a_png
           (mkBackground (Opened {[ 5 := ("b.png", "data:,") ]}) None []
                         [UploadLabel] false [] [])).
  cbn. eexists. reflexivity.
Defined.

(** X17: an upload on an opened store with no record under the current
    time stamp stores the image, puts its option right before the
    upload label (after the options already there), shows the image as
    background and hides the modal; it alerts nothing and leaves the
    highlight where it was -- the new option is not marked active. *)
Theorem X17_successful_upload now f b images before after :
  storage b = Opened images -> images !! now = None ->
  savedGrid b = (before ++ UploadLabel :: after)%list ->
  UploadLabel ∉ before ->
  upload now (Some f) b
    = mkBackground
        (Opened (<[now := (file_name f, DataURL.readAsDataURL f)]> images))
        (Some ("url(" +:+ DataURL.readAsDataURL f +:+ ")"))
        (presetOptions b)
        (before ++ SavedOption (file_name f) (DataURL.readAsDataURL f) false
                :: UploadLabel :: after)
        true (bg_alerts b) (console_errors b).
Proof.
  intros Hs Hfresh Hg Hn. unfold upload.
  rewrite Hs, (saveImage_resolved now f images Hfresh).
  unfold addSavedOption, setBackgroundImage, set_modal_hidden, set_layer,
    set_savedGrid, set_storage. cbn. rewrite Hg.
  now rewrite insert_before_label_split.
Qed.

Lemma X17_successful_upload_witness :
  let b := mkBackground (Opened ∅) None [("pastel", true)]
             [SavedOption "b.png" "data:," false; UploadLabel] false [] [] in
  upload 5 (Some Storage.a_png) b
    = mkBackground
        (Opened {[ 5 := ("a.png", "data:image/png;base64,iVA=") ]})
        (Some "url(data:image/png;base64,iVA=)")
        [("pastel", true)]
        [SavedOption "b.png" "data:," false;
         SavedOption "a.png" "data:image/png;base64,iVA=" false; UploadLabel]
        true [] [].
Proof.
  apply (X17_successful_upload 5 Storage.a_png
           (mkBackground (Opened ∅) None [("pastel", true)]
              [SavedOption "b.png" "data:," false; UploadLabel] false [] [])
           ∅ [SavedOption "b.png" "data:," false] []).
  - reflexivity.
  - reflexivity.
  - reflexivity.
  - rewrite list_elem_of_singleton. discriminate.
Defined.

(** X18: constructing the manager on an opened store puts one option
    per stored image, in the order of the listing, right before the
    upload label, nothing active, nothing logged; on a store that could
    not be opened it leaves the grid as it is and logs one console
    message, without an alert. *)
Theorem X18_load_saved_images presets before after hidden :
  UploadLabel ∉ before ->
  (forall images,
     new (Opened images) presets (before ++ UploadLabel :: after) hidden
       = mkBackground (Opened images) None presets
           (before ++ (option_of <$> IDB.getAll images)
                   ++ UploadLabel :: after)
           hidden [] []) /\
  (forall e,
     new (OpenFailed e) presets (before ++ UploadLabel :: after) hidden
       = mkBackground (OpenFailed e) None presets
           (before ++ UploadLabel :: after) hidden []
           ["Error loading images"]).
Proof.
  intros Hn. split; [|reflexivity].
  intros images. unfold new, loadSavedImages. cbn [storage Storage.getAllImages].
  now rewrite (load_options _ _ before after).
Qed.

Lemma X18_load_saved_images_witness :
  new (Opened {[ 7 := ("b.png", "data:,b"); 5 := ("a.png", "data:,a") ]})
      [] [UploadLabel] true
    = mkBackground
        (Opened {[ 7 := ("b.png", "data:,b"); 5 := ("a.png", "data:,a") ]})
        None []
        [SavedOption "a.png" "data:,a" false;
         SavedOption "b.png" "data:,b" false; UploadLabel]
        true [] [].
Proof.
  destruct (X18_load_saved_images [] [] [] true) as [H _].
  - apply not_elem_of_nil.
  - rewrite (H {[ 7 := ("b.png", "data:,b"); 5 := ("a.png", "data:,a") ]}).
    vm_compute. reflexivity.
Defined.

(** X19: when the markup's grid holds no saved option, then after the
    manager is constructed and after any sequence of events the saved
    options on the page are exactly the images in the store (with
    multiplicity, up to order). *)
Theorem X19_options_match_store store presets grid hidden es b :
  saved_options grid = [] ->
  run es (new store presets grid hidden) = Some b ->
  saved_options (savedGrid b) ≡ₚ stored_images (storage b).
Proof.
  intros Hgrid.
  assert (H0 : saved_options (savedGrid (new store presets grid hidden))
               ≡ₚ stored_images (storage (new store presets grid hidden))).
  { unfold new, loadSavedImages. destruct store as [images|e]; cbn [storage Storage.getAllImages].
    - destruct (load_options_saved (IDB.getAll images)
                  (mkBackground (Opened images) None presets grid hidden [] []))
        as [Hp Hs].
      rewrite Hp, Hs. cbn [savedGrid storage stored_images]. now rewrite Hgrid.
    - cbn [savedGrid storage console_error stored_images]. now rewrite Hgrid. }
  revert H0. generalize (new store presets grid hidden).
  induction es as [|e es IH]; intros b0 H0; cbn [run].
  - now intros [= <-].
  - destruct (handle e b0) as [b1|] eqn:E; [|discriminate].
    apply IH. destruct e; cbn [handle] in E.
    + now injection E as <-.
    + now injection E as <-.
    + destruct (presetOptions b0 !! i); [|discriminate]. injection E as <-.
      rewrite setActive_saved_options. cbn [setActive storage].
      unfold setPreset. now repeat destruct (decide _).
    + destruct (savedGrid b0 !! j) as [[n d a|]|]; try discriminate.
      injection E as <-. rewrite setActive_saved_options. exact H0.
    + injection E as <-. unfold upload. destruct file as [f|]; [|exact H0].
      destruct (storage b0) as [images|err] eqn:Es.
      * cbn [Storage.saveImage].
        destruct (IDB.add _ images) as [images'|] eqn:Ea.
        -- cbn [set_modal_hidden setBackgroundImage set_layer addSavedOption
                set_savedGrid set_storage savedGrid storage stored_images
                img_name img_data].
           rewrite insert_before_label_saved, (getAll_add_perm _ _ _ Ea).
           cbn [fmap list_fmap img_name img_data].
           cbn [stored_images] in H0.
           change (saved_options [SavedOption (file_name f)
                                   (DataURL.readAsDataURL f) false])
             with [(file_name f, DataURL.readAsDataURL f)].
           cbn [app]. now rewrite H0.
        -- cbn [alert console_error set_storage savedGrid storage].
           exact H0.
      * cbn [Storage.saveImage alert console_error set_storage savedGrid storage].
        exact H0.
Qed.

Lemma X19_options_match_store_witness :
  exists b,
    run [Upload 5 (Some Storage.a_png); ClickSaved 0;
         Upload 5 (Some Storage.a_png); Upload 6 (Some Storage.a_png)]
        (new (Opened ∅) [("pastel", true)] [UploadLabel] true) = Some b /\
    saved_options (savedGrid b) ≡ₚ stored_images (storage b).
Proof.
  destruct (run [Upload 5 (Some Storage.a_png); ClickSaved 0;
                 Upload 5 (Some Storage.a_png); Upload 6 (Some Storage.a_png)]
                (new (Opened ∅) [("pastel", true)] [UploadLabel] true))
    as [b|] eqn:E.
  - exists b. split; [reflexivity|].
    refine (X19_options_match_store (Opened ∅) [("pastel", true)]
              [UploadLabel] true _ b _ E).
    reflexivity.
  - vm_compute in E. discriminate E.
Defined.

(** X20: after a click on an option exactly that option is highlighted.
    A click on a saved option also shows its image; a click on a preset
    whose [data-bg] is neither ["pastel"] nor ["gradient"] leaves the
    background as it was. *)
Theorem X20_clicked_option_active b :
  (forall j b', handle (ClickSaved j) b = Some b' ->
     (exists n d a, savedGrid b !! j = Some (SavedOption n d a) /\
                    layer b' = Some ("url(" +:+ d +:+ ")")) /\
     (forall k n d a, savedGrid b' !! k = Some (SavedOption n d a) ->
                      a = bool_decide (k = j)) /\
     (forall k o, presetOptions b' !! k = Some o -> snd o = false)) /\
  (forall i b', handle (ClickPreset i) b = Some b' ->
     (forall k o, presetOptions b' !! k = Some o ->
                  snd o = bool_decide (k = i)) /\
     (forall k n d a, savedGrid b' !! k = Some (SavedOption n d a) ->
                      a = false) /\
     (forall o, presetOptions b !! i = Some o ->
                fst o <> "pastel" -> fst o <> "gradient" ->
                layer b' = layer b)).
Proof.
  assert (Hgrid : forall target b0 k n d a,
            savedGrid (setActive target b0) !! k = Some (SavedOption n d a) ->
            a = bool_decide (target = SavedTarget k)).
  { intros target b0 k n d a. cbn [setActive savedGrid].
    rewrite list_lookup_imap. destruct (savedGrid b0 !! k) as [[]|]; cbn;
      intros [=]; congruence. }
  assert (Hpre : forall target b0 k o,
            presetOptions (setActive target b0) !! k = Some o ->
            snd o = bool_decide (target = PresetTarget k)).
  { intros target b0 k o. cbn [setActive presetOptions].
    rewrite list_lookup_imap. destruct (presetOptions b0 !! k); cbn;
      intros [=]; now subst. }
  split.
  - intros j b'. cbn [handle].
    destruct (savedGrid b !! j) as [[n d a|]|] eqn:E; try discriminate.
    intros [= <-]. split; [now exists n, d, a|]. split.
    + intros k n' d' a' Hk. rewrite (Hgrid _ _ _ _ _ _ Hk).
      apply bool_decide_ext. split; congruence.
    + intros k o Hk. rewrite (Hpre _ _ _ _ Hk).
      now apply bool_decide_eq_false.
  - intros i b'. cbn [handle].
    destruct (presetOptions b !! i) as [opt|] eqn:E; [|discriminate].
    intros [= <-]. split; [|split].
    + intros k o Hk. rewrite (Hpre _ _ _ _ Hk).
      apply bool_decide_ext. split; congruence.
    + intros k n d a Hk. rewrite (Hgrid _ _ _ _ _ _ Hk).
      now apply bool_decide_eq_false.
    + intros o [= <-] H1 H2. cbn [setActive layer]. unfold setPreset.
      now repeat destruct (decide _).
Qed.

Lemma X20_clicked_option_active_witness :
  let b := mkBackground (Opened ∅) None [("pastel", true); ("sky", false)]
             [SavedOption "a.png" "data:,a" false; UploadLabel] true [] [] in
  (exists b', handle (ClickSaved 0) b = Some b' /\
              layer b' = Some "url(data:,a)" /\
              savedGrid b' = [SavedOption "a.png" "data:,a" true; UploadLabel] /\
              presetOptions b' = [("pastel", false); ("sky", false)]) /\
  (exists b', handle (ClickPreset 1) b = Some b' /\ layer b' = layer b).
Proof.
  intros b. destruct (X20_clicked_option_active b) as [Hs Hp]. split.
  - eexists. split; [reflexivity|]. repeat split; reflexivity.
  - eexists. split; [reflexivity|].
    destruct (Hp 1%nat _ eq_refl) as (_ & _ & Hl).
    apply (Hl ("sky", false)); [reflexivity|discriminate|discriminate].
Defined.

End BackgroundProperties.

(** ** The rotating messages *)

Section MotivationProperties.

Import Motivation.

Lemma message_at_defined i :
  (i < 9)%nat -> message_at i ∈ messages.
Proof.
  intros Hi. unfold message_at.
  destruct (messages !! i) as [msg|] eqn:E.
  - eapply list_elem_of_lookup_2; eauto.
  - apply lookup_ge_None in E. cbn in E. lia.
Qed.

Lemma run_rotates es : forall m0 m,
  (currentIndex m0 < 9)%nat ->
  (fade_out m0 = true -> (0 < pending m0)%nat) ->
  run es m0 = Some m ->
  currentIndex m = ((currentIndex m0 + shown_count es) mod 9)%nat /\
  (shown_count es = 0%nat -> display m = display m0) /\
  ((0 < shown_count es)%nat ->
   display m = String JSON.dquote
                 (message_at (currentIndex m) +:+ String JSON.dquote "")) /\
  (fade_out m = true -> (0 < pending m)%nat).
Proof.
  induction es as [|e es IH]; intros m0 m Hi Hf; cbn [run].
  - intros [= <-]. change (shown_count []) with 0%nat.
    rewrite Nat.add_0_r, Nat.mod_small by lia.
    repeat split; auto; lia.
  - destruct (handle e m0) as [m1|] eqn:E; [|discriminate].
    intros Hrun. destruct e; cbn [handle] in E.
    + injection E as <-.
      destruct (IH (nextMessage m0) m) as (H1 & H2 & H3 & H4); auto.
      { cbn. lia. }
    + destruct (decide (pending m0 = 0%nat)); [discriminate|].
      injection E as <-.
      assert (Hc : shown_count (Timeout :: es) = S (shown_count es)).
      { unfold shown_count. now rewrite filter_cons_True. }
      destruct (IH (on_timeout m0) m) as (H1 & H2 & H3 & H4); auto.
      { unfold on_timeout. cbn [currentIndex].
        apply Nat.mod_upper_bound. discriminate. }
      { discriminate. }
      rewrite Hc. unfold on_timeout in H1, H2.
      cbn [currentIndex display] in H1, H2.
      change (length messages) with 9%nat in H1, H2.
      split; [|split; [lia|split; [|exact H4]]].
      * rewrite H1, Nat.Div0.add_mod_idemp_l. f_equal. lia.
      * intros _. destruct (shown_count es) as [|c] eqn:Ec.
        -- rewrite H2 by reflexivity. rewrite H1, Nat.add_0_r.
           now rewrite Nat.Div0.mod_mod.
        -- apply H3. lia.
Qed.

(** X21: the messages rotate in the order of the list and wrap after
    the ninth.  After any sequence of interval ticks and timeouts, with
    [k] timeouts fired: the index is [k mod 9]; the display still holds
    the markup's text when [k = 0] and otherwise the [k mod 9]-th
    message between quotes -- always one of the nine, never
    ["undefined"]; and the text is faded out only while a timeout that
    will show it again is pending. *)
Theorem X21_messages_rotate display0 es m :
  run es (new display0) = Some m ->
  currentIndex m = (shown_count es mod 9)%nat /\
  message_at (currentIndex m) ∈ messages /\
  (shown_count es = 0%nat -> display m = display0) /\
  ((0 < shown_count es)%nat ->
   display m = String JSON.dquote
                 (message_at (shown_count es mod 9) +:+ String JSON.dquote "")) /\
  (fade_out m = true -> (0 < pending m)%nat).
Proof.
  intros Hrun.
  destruct (run_rotates es (new display0) m) as (H1 & H2 & H3 & H4);
    [cbn; lia|discriminate|exact Hrun|].
  cbn [new currentIndex display] in *. rewrite Nat.add_0_l in H1.
  split; [exact H1|]. split.
  { apply message_at_defined. rewrite H1. apply Nat.mod_upper_bound. lia. }
  split; [exact H2|]. split; [|exact H4].
  intros Hk. rewrite <- H1. now apply H3.
Qed.

Lemma X21_messages_rotate_witness :
  exists m,
    run (concat (replicate 10 [TenSeconds; Timeout])) (new "Welcome") = Some m /\
    currentIndex m = 1%nat /\
    display m = String JSON.dquote
                  ("believe in yourself!" +:+ String JSON.dquote "") /\
    (fade_out m = true -> (0 < pending m)%nat).
Proof.
  destruct (run (concat (replicate 10 [TenSeconds; Timeout])) (new "Welcome"))
    as [m|] eqn:E.
  - exists m. split; [reflexivity|].
    destruct (X21_messages_rotate "Welcome" _ m E) as (H1 & _ & _ & H3 & H4).
    split; [exact H1|]. split; [|exact H4].
    apply H3. vm_compute. lia.
  - vm_compute in E. discriminate E.
Defined.

End MotivationProperties.

(** ** More on the image store *)

Section StorageProperties.

Import Storage.

(** X22: [saveImage] never disturbs the images already stored.  On an
    opened store, when no record has the current time stamp the listing
    afterwards is the new record together with the records listed
    before; otherwise the save rejects with the store as it was. *)
Theorem X22_save_keeps_images now f images :
  (images !! now = None ->
   exists item s',
     saveImage now f (Opened images) = (Resolved item, s') /\
     exists l', getAllImages s' = Resolved l' /\
                l' ≡ₚ item :: IDB.getAll images /\
                forall r, r ∈ IDB.getAll images -> r ∈ l') /\
  (is_Some (images !! now) ->
   saveImage now f (Opened images) = (Rejected ConstraintError, Opened images)).
Proof.
  split.
  - intros Hfresh. rewrite (saveImage_resolved now f images Hfresh).
    eexists _, _. split; [reflexivity|]. eexists. split; [reflexivity|].
    assert (Hp : IDB.getAll (<[now := (file_name f, DataURL.readAsDataURL f)]> images)
                 ≡ₚ mkImage now (file_name f) (DataURL.readAsDataURL f)
                    :: IDB.getAll images).
    { apply getAll_add_perm. unfold IDB.add. cbn. now rewrite Hfresh. }
    split; [exact Hp|]. intros r Hr. rewrite Hp. now right.
  - intros [v Hv]. cbn. unfold IDB.add. cbn. now rewrite Hv.
Qed.

Lemma X22_save_keeps_images_witness :
  (exists item s',
     saveImage 7 a_png (Opened {[ 5 := ("b.png", "data:,") ]})
       = (Resolved item, s') /\
     exists l', getAllImages s' = Resolved l' /\
                l' ≡ₚ item :: IDB.getAll {[ 5 := ("b.png", "data:,") ]} /\
                forall r, r ∈ IDB.getAll {[ 5 := ("b.png", "data:,") ]} -> r ∈ l') /\
  saveImage 5 a_png (Opened {[ 5 := ("b.png", "data:,") ]})
    = (Rejected ConstraintError, Opened {[ 5 := ("b.png", "data:,") ]}).
Proof.
  split.
  - apply (X22_save_keeps_images 7 a_png {[ 5 := ("b.png", "data:,") ]}).
    reflexivity.
  - apply (X22_save_keeps_images 5 a_png {[ 5 := ("b.png", "data:,") ]}).
    eexists. reflexivity.
Defined.

End StorageProperties.

(** ** The rain sound *)

Section AudioMixerProperties.

Variable Volume : Type.
Variable positive : Volume -> bool.
Variable zero : Volume -> bool.
Hypothesis positive_not_zero : forall v, positive v = true -> zero v = false.

Lemma on_input_one_source vol a :
  one_source a ->
  one_source (on_input positive zero vol a) /\
  (positive vol = true -> is_Some (rainNode (on_input positive zero vol a))) /\
  (zero vol = true -> rainNode (on_input positive zero vol a) = None) /\
  (forall g, rainGain (on_input positive zero vol a) = Some g ->
             gain_target (on_input positive zero vol a) !! g = Some vol).
Proof.
  intros [Hp Hg]. destruct a as [node gain playing connected target next].
  cbn [sources_playing rainNode rainGain] in Hp, Hg. subst playing.
  assert (Hgain : node = None \/ is_Some gain).
  { destruct node; [right; apply Hg; eauto|now left]. }
  clear Hg. unfold on_input, setTarget, startRain, stopRain, one_source.
  destruct (positive vol) eqn:Epos;
    [rewrite (positive_not_zero _ Epos)|destruct (zero vol) eqn:Ez];
    destruct node as [n|]; destruct gain as [g|];
    try (destruct Hgain as [[=]|[x [=]]]; fail);
    cbn;
    rewrite ?difference_diag_L, ?(right_id_L ∅ (∪));
    repeat split; try discriminate; eauto;
    try (intros [x [=]]; fail);
    try (intros g' [= <-]; apply lookup_insert_eq).
Qed.

(** X23: the rain sound under any sequence of slider inputs.  Never
    more than one noise source is playing, namely the one in
    [rainNode]; and after the last input the sound is on when its value
    is above zero and off when it is zero, with the current gain
    steered to that value. *)
Theorem X23_rain_follows_slider vols :
  let a := inputs positive zero vols new_mixer in
  sources_playing a = match rainNode a with
                      | Some node => {[node]}
                      | None => ∅
                      end /\
  forall v, last vols = Some v ->
    (positive v = true -> is_Some (rainNode a)) /\
    (zero v = true -> rainNode a = None) /\
    (forall g, rainGain a = Some g -> gain_target a !! g = Some v).
Proof.
  assert (Hinv : forall vols, one_source (inputs positive zero vols new_mixer)).
  { intros l. induction l as [|v l IH] using rev_ind.
    - split; [reflexivity|]. now intros [x [=]].
    - unfold inputs in *. rewrite fold_left_app. cbn [fold_left].
      now apply on_input_one_source. }
  cbn zeta. split; [apply Hinv|].
  intros v Hv. destruct vols as [|v0 vols0] using rev_ind; [discriminate|].
  rewrite last_snoc in Hv. injection Hv as ->.
  unfold inputs. rewrite fold_left_app. cbn [fold_left].
  apply on_input_one_source. apply Hinv.
Qed.

End AudioMixerProperties.

Lemma X23_rain_follows_slider_witness :
  let a := inputs (Z.ltb 0) (Z.eqb 0) [5; 7; 0; 3] new_mixer in
  sources_playing a = match rainNode a with
                      | Some node => {[node]}
                      | None => ∅
                      end /\
  forall v, last [5; 7; 0; 3] = Some v ->
    ((0 <? v) = true -> is_Some (rainNode a)) /\
    ((0 =? v) = true -> rainNode a = None) /\
    (forall g, rainGain a = Some g -> gain_target a !! g = Some v).
Proof.
  apply (X23_rain_follows_slider Z (Z.ltb 0) (Z.eqb 0)).
  intros v Hv. apply Z.ltb_lt in Hv. apply Z.eqb_neq. lia.
Defined.
